(** * Extension scanning and web extension management: a shallow embedding

    The development follows two source files:

    - [vs/server/remoteAgentEnvironmentImpl.ts]
      ([RemoteAgentEnvironmentChannel]: the merge of the three extension
      scans, the rewriting of [when] clauses, the environment data), and
    - [vs/workbench/services/extensionManagement/common/webExtensionManagementService.ts]
      ([WebExtensionManagementService], [InstallExtensionTask],
      [getMetadata], [toLocalExtension]).

    Collaborators that live elsewhere ([ExtensionIdentifier.toKey],
    [ContextKeyExpr], [join], [URI.file], the web extensions scanner
    service, the base class of the service) are section variables. *)

From Stdlib Require Import List String Ascii Bool Arith NArith Lia.
From Stdlib Require Import DecimalString DecimalNat DecimalN.
Import ListNotations.
Local Open Scope string_scope.
Local Open Scope list_scope.

Set Implicit Arguments.
Set Warnings "-register-all".

(* ===================================================================== *)
(** * JavaScript values *)
(* ===================================================================== *)

Module Js.

(** A property of type [boolean | undefined]: [None] is [undefined]. *)
Definition optbool := option bool.

(** [!!v] for [v : boolean | undefined]. *)
Definition truthy (v : optbool) : bool :=
  match v with
  | Some true => true
  | _ => false
  end.

(** [a || b] on [boolean | undefined]: the left operand when it is truthy,
    the right operand (whatever it is) otherwise. *)
Definition or (a b : optbool) : optbool :=
  if truthy a then a else b.

(** [isBoolean(v)]. *)
Definition isBoolean (v : optbool) : bool :=
  match v with
  | Some _ => true
  | None => false
  end.

(** [s || null] for [s : string | undefined]: the empty string is falsy. *)
Definition str_or_null (s : option string) : option string :=
  match s with
  | Some "" => None
  | _ => s
  end.

(** [a ?? b]. *)
Definition nullish {A} (a b : option A) : option A :=
  match a with
  | Some _ => a
  | None => b
  end.

End Js.

(* ===================================================================== *)
(** * The JavaScript [Map<string, V>]

    Entries are kept in insertion order; [set] on a key that is already
    present replaces the value and keeps the position of the entry. *)
(* ===================================================================== *)

Module JsMap.
Section JsMap.
Variable V : Type.

Definition t := list (string * V).

Definition empty : t := [].

Fixpoint set (k : string) (v : V) (m : t) : t :=
  match m with
  | [] => [(k, v)]
  | (k', v') :: m' =>
      if String.eqb k' k then (k', v) :: m' else (k', v') :: set k v m'
  end.

Fixpoint get (k : string) (m : t) : option V :=
  match m with
  | [] => None
  | (k', v') :: m' => if String.eqb k' k then Some v' else get k m'
  end.

Definition has (k : string) (m : t) : bool :=
  match get k m with
  | Some _ => true
  | None => false
  end.

Definition keys (m : t) : list string := map fst m.

(** [m.forEach(v => r.push(v))]. *)
Definition values (m : t) : list V := map snd m.

End JsMap.
End JsMap.

(* ===================================================================== *)
(** * Extension descriptions *)
(* ===================================================================== *)

(** A contribution entry that may carry a [when] clause
    ([interface WhenUser { when?: string; }]); [props] stands for the
    other properties of the entry, which the rewriter never touches. *)
Record WhenUser := mkWhenUser {
  when : option string;
  props : list (string * string)
}.

(** [WhenUser[] | WhenUser]; an entry of the array may be [null]. *)
Inductive WhenUsers :=
| OneWhenUser (element : option WhenUser)
| ManyWhenUsers (elements : list (option WhenUser)).

(** [interface LocWhenUser { [loc: string]: WhenUser[]; }]. *)
Definition LocWhenUser := list (string * WhenUsers).

Record Contributes := mkContributes {
  menus : option LocWhenUser;
  keybindings : option WhenUsers;
  views : option LocWhenUser
}.

Record ExtensionIdentifier := mkExtensionIdentifier {
  value : string
}.

Record IExtensionDescription := mkExtensionDescription {
  identifier : ExtensionIdentifier;
  extensionLocation : string;      (* [extensionLocation.fsPath] *)
  isBuiltinDesc : bool;
  isUnderDevelopment : bool;
  contributes : option Contributes
}.

(* ===================================================================== *)
(** * [scanExtensions]: merging the three scans *)
(* ===================================================================== *)

Section ScanExtensions.

(** [ExtensionIdentifier.toKey]. *)
Variable toKey : ExtensionIdentifier -> string.

Definition keyOf (e : IExtensionDescription) : string :=
  toKey (identifier e).

(** The message handed to [console.warn]: the two locations named by
    ["Overwriting extension {0} with {1}."]. *)
Record Warning := mkWarning {
  overwritten : string;
  overwriting : string
}.

Definition Result := JsMap.t IExtensionDescription.

(** Body of [builtinExtensions.forEach] (and of
    [developedExtensions.forEach], which is the same). *)
Definition setExtension (result : Result) (ext : option IExtensionDescription)
  : Result :=
  match ext with
  | None => result
  | Some e => JsMap.set (keyOf e) e result
  end.

(** Body of [installedExtensions.forEach]: warns when the key is taken. *)
Definition setInstalledExtension (st : Result * list Warning)
    (ext : option IExtensionDescription) : Result * list Warning :=
  let (result, console) := st in
  match ext with
  | None => st
  | Some e =>
      let console' :=
        if JsMap.has (keyOf e) result
        then match JsMap.get (keyOf e) result with
             | Some old =>
                 console
                   ++ [mkWarning (extensionLocation old) (extensionLocation e)]
             | None => console
             end
        else console in
      (JsMap.set (keyOf e) e result, console')
  end.

(** The continuation of [Promise.all([...])] in [scanExtensions]: the
    merged descriptions and the warnings written to the console. *)
Definition scanExtensions_console
    (builtinExtensions installedExtensions developedExtensions
       : list (option IExtensionDescription))
  : list IExtensionDescription * list Warning :=
  let result := fold_left setExtension builtinExtensions (JsMap.empty _) in
  let (result, console) :=
    fold_left setInstalledExtension installedExtensions (result, []) in
  let result := fold_left setExtension developedExtensions result in
  (JsMap.values result, console).

Definition scanExtensions
    (builtinExtensions installedExtensions developedExtensions
       : list (option IExtensionDescription))
  : list IExtensionDescription :=
  fst (scanExtensions_console
         builtinExtensions installedExtensions developedExtensions).

(** The descriptions a scan yields, [null] entries left out. *)
Fixpoint yielded (src : list (option IExtensionDescription))
  : list IExtensionDescription :=
  match src with
  | [] => []
  | None :: src' => yielded src'
  | Some e :: src' => e :: yielded src'
  end.

(** The entries of a merged result that carry the key [k]. *)
Definition entriesFor (k : string) (r : list IExtensionDescription)
  : list IExtensionDescription :=
  filter (fun e => String.eqb (keyOf e) k) r.

(** The map of the merge: keys are distinct and every entry sits under
    the key of its description. *)
Definition keyed (m : Result) : Prop :=
  NoDup (JsMap.keys m) /\ forall k e, In (k, e) m -> k = keyOf e.

End ScanExtensions.

(* ===================================================================== *)
(** * Strings as the rewriter uses them *)
(* ===================================================================== *)

(** [/p/.test(s)] for a pattern that is a plain word: [p] occurs in [s]. *)
Fixpoint contains (p s : string) : bool :=
  if String.prefix p s then true
  else match s with
       | EmptyString => false
       | String _ s' => contains p s'
       end.

Definition isFile (c1 c2 c3 c4 : ascii) : bool :=
  Ascii.eqb c1 "f" && Ascii.eqb c2 "i" && Ascii.eqb c3 "l" && Ascii.eqb c4 "e".

(** [value.replace(/file/g, 'vscode-remote')]: the matches are taken from
    left to right and do not overlap. *)
Fixpoint replaceFile (s : string) : string :=
  match s with
  | EmptyString => EmptyString
  | String c1 t =>
      match t with
      | String c2 (String c3 (String c4 rest)) =>
          if isFile c1 c2 c3 c4
          then "vscode-remote" ++ replaceFile rest
          else String c1 (replaceFile t)
      | _ => String c1 (replaceFile t)
      end
  end.

Definition _mapResourceSchemeValue (value : string) (isRegex : bool) : string :=
  replaceFile value.

(** Whether a string begins with [file], the case in which [replaceFile]
    substitutes. *)
Definition startsFile (s : string) : bool :=
  match s with
  | String c1 (String c2 (String c3 (String c4 _))) => isFile c1 c2 c3 c4
  | _ => false
  end.

(** The characters of a flags string other than [g], [i] and [m]. *)
Fixpoint otherFlagsOf (flags : string) : string :=
  match flags with
  | EmptyString => EmptyString
  | String c rest =>
      if Ascii.eqb c "g" || Ascii.eqb c "i" || Ascii.eqb c "m"
      then otherFlagsOf rest
      else String c (otherFlagsOf rest)
  end.

(** A call that may throw: [None] is the exception. *)
Definition Throws (A : Type) : Type := option A.

Fixpoint mapThrows {A B} (f : A -> Throws B) (l : list A) : Throws (list B) :=
  match l with
  | [] => Some []
  | a :: l' =>
      match f a with
      | None => None
      | Some b =>
          match mapThrows f l' with
          | None => None
          | Some bs => Some (b :: bs)
          end
      end
  end.

(* ===================================================================== *)
(** * Context key expressions *)
(* ===================================================================== *)

(** A JavaScript [RegExp] as the rewriter sees it: its [source], the three
    flags it reads, and whatever other flags the expression carries. *)
Record RegExp := mkRegExp {
  source : string;
  global : bool;
  ignoreCase : bool;
  multiline : bool;
  otherFlags : string
}.

(** The [value: any] operand of an equality. *)
Inductive ContextValue :=
| VString (s : string)
| VBoolean (b : bool).

(** Modelled from the spec: the classes of [vs/platform/contextkey] are
    not part of the sources.  The expression is the recursive sum type the
    specification names ([Defined | Not | Equals | NotEquals | Regex | In |
    And | Or]); the atoms carry the arguments of the [create] calls made by
    the mapper in [massageWhenConditions]. *)
Inductive ContextKeyExpression :=
| ContextKeyDefinedExpr (key : string)
| ContextKeyNotExpr (key : string)
| ContextKeyEqualsExpr (key : string) (value : ContextValue)
| ContextKeyNotEqualsExpr (key : string) (value : ContextValue)
| ContextKeyRegexExpr (key : string) (regexp : option RegExp)
| ContextKeyInExpr (key : string) (valueKey : string)
| ContextKeyAndExpr (expr : list ContextKeyExpression)
| ContextKeyOrExpr (expr : list ContextKeyExpression).

(** [interface IContextKeyExprMapper]; any of its methods may throw. *)
Record IContextKeyExprMapper := mkMapper {
  mapDefined : string -> Throws ContextKeyExpression;
  mapNot : string -> Throws ContextKeyExpression;
  mapEquals : string -> ContextValue -> Throws ContextKeyExpression;
  mapNotEquals : string -> ContextValue -> Throws ContextKeyExpression;
  mapRegex : string -> option RegExp -> Throws ContextKeyExpression;
  mapIn : string -> string -> Throws ContextKeyExpression
}.

(** Modelled from the spec: [ContextKeyExpression.map], the visitor that
    hands every atom to the mapper and rebuilds conjunctions and
    disjunctions from their mapped operands. *)
Fixpoint exprMap (m : IContextKeyExprMapper) (e : ContextKeyExpression)
  : Throws ContextKeyExpression :=
  match e with
  | ContextKeyDefinedExpr key => mapDefined m key
  | ContextKeyNotExpr key => mapNot m key
  | ContextKeyEqualsExpr key value => mapEquals m key value
  | ContextKeyNotEqualsExpr key value => mapNotEquals m key value
  | ContextKeyRegexExpr key regexp => mapRegex m key regexp
  | ContextKeyInExpr key valueKey => mapIn m key valueKey
  | ContextKeyAndExpr es =>
      option_map ContextKeyAndExpr
        ((fix go (l : list ContextKeyExpression) : Throws (list ContextKeyExpression) :=
            match l with
            | [] => Some []
            | a :: l' =>
                match exprMap m a with
                | None => None
                | Some b =>
                    match go l' with
                    | None => None
                    | Some bs => Some (b :: bs)
                    end
                end
            end) es)
  | ContextKeyOrExpr es =>
      option_map ContextKeyOrExpr
        ((fix go (l : list ContextKeyExpression) : Throws (list ContextKeyExpression) :=
            match l with
            | [] => Some []
            | a :: l' =>
                match exprMap m a with
                | None => None
                | Some b =>
                    match go l' with
                    | None => None
                    | Some bs => Some (b :: bs)
                    end
                end
            end) es)
  end.

(* ===================================================================== *)
(** * [massageWhenConditions] *)
(* ===================================================================== *)

Section MassageWhenConditions.

(** Whether the JavaScript engine accepts a pattern with a flags string:
    [new RegExp(p, f)] throws a [SyntaxError] otherwise. *)
Variable regexpAccepts : string -> string -> bool.

(** Modelled from the spec: [ContextKeyExpr.deserialize] and
    [ContextKeyExpression.serialize] of [vs/platform/contextkey], which
    are not part of the sources.  [deserialize] answers [None] for an
    expression it cannot parse. *)
Variable deserialize : string -> option ContextKeyExpression.
Variable serialize : ContextKeyExpression -> string.

(** [new RegExp(pattern, flags)]: the expression has the flags the flags
    string holds, [g], [i] and [m] read into their properties and every
    other character of the string kept as it is. *)
Definition newRegExp (pattern flags : string) : Throws RegExp :=
  if regexpAccepts pattern flags
  then Some (mkRegExp pattern
               (contains "g" flags) (contains "i" flags) (contains "m" flags)
               (otherFlagsOf flags))
  else None.

Definition _mapResourceRegExpValue (value : RegExp) : Throws RegExp :=
  let flags := "" in
  let flags := (flags ++ (if global value then "g" else ""))%string in
  let flags := (flags ++ (if ignoreCase value then "i" else ""))%string in
  let flags := (flags ++ (if multiline value then "m" else ""))%string in
  newRegExp (_mapResourceSchemeValue (source value) true) flags.

Definition _exprKeyMapper : IContextKeyExprMapper :=
  {| mapDefined := fun key => Some (ContextKeyDefinedExpr key);
     mapNot := fun key => Some (ContextKeyNotExpr key);
     mapEquals := fun key value =>
       match value with
       | VString s =>
           if String.eqb key "resourceScheme"
           then Some (ContextKeyEqualsExpr key
                        (VString (_mapResourceSchemeValue s false)))
           else Some (ContextKeyEqualsExpr key value)
       | _ => Some (ContextKeyEqualsExpr key value)
       end;
     mapNotEquals := fun key value =>
       match value with
       | VString s =>
           if String.eqb key "resourceScheme"
           then Some (ContextKeyNotEqualsExpr key
                        (VString (_mapResourceSchemeValue s false)))
           else Some (ContextKeyNotEqualsExpr key value)
       | _ => Some (ContextKeyNotEqualsExpr key value)
       end;
     mapRegex := fun key regexp =>
       match regexp with
       | Some r =>
           if String.eqb key "resourceScheme"
           then option_map (fun r' => ContextKeyRegexExpr key (Some r'))
                  (_mapResourceRegExpValue r)
           else Some (ContextKeyRegexExpr key regexp)
       | None => Some (ContextKeyRegexExpr key regexp)
       end;
     mapIn := fun key valueKey => Some (ContextKeyInExpr key valueKey) |}.

Definition _massageWhenUser (element : option WhenUser)
  : Throws (option WhenUser) :=
  match element with
  | None => Some element
  | Some el =>
      match when el with
      | None => Some element
      | Some w =>
          if String.eqb w "" || negb (contains "resourceScheme" w)
          then Some element
          else
            match deserialize w with
            | None => Some element
            | Some expr =>
                match exprMap _exprKeyMapper expr with
                | None => None
                | Some massaged =>
                    Some (Some (mkWhenUser (Some (serialize massaged))
                                  (props el)))
                end
            end
      end
  end.

Definition _massageWhenUserArr (elements : WhenUsers) : Throws WhenUsers :=
  match elements with
  | ManyWhenUsers l => option_map ManyWhenUsers (mapThrows _massageWhenUser l)
  | OneWhenUser element => option_map OneWhenUser (_massageWhenUser element)
  end.

Definition _massageLocWhenUser (target : LocWhenUser) : Throws LocWhenUser :=
  mapThrows
    (fun entry : string * WhenUsers =>
       option_map (fun users => (fst entry, users))
         (_massageWhenUserArr (snd entry)))
    target.

(** [if (x) { f(x) }] on an optional property. *)
Definition whenPresent {A} (f : A -> Throws A) (x : option A)
  : Throws (option A) :=
  match x with
  | None => Some None
  | Some a => option_map Some (f a)
  end.

Definition massageContributes (c : Contributes) : Throws Contributes :=
  match whenPresent _massageLocWhenUser (menus c) with
  | None => None
  | Some menus' =>
      match whenPresent _massageWhenUserArr (keybindings c) with
      | None => None
      | Some keybindings' =>
          match whenPresent _massageLocWhenUser (views c) with
          | None => None
          | Some views' => Some (mkContributes menus' keybindings' views')
          end
      end
  end.

Definition massageExtension (extension : IExtensionDescription)
  : Throws IExtensionDescription :=
  option_map
    (fun c => mkExtensionDescription (identifier extension)
                (extensionLocation extension) (isBuiltinDesc extension)
                (isUnderDevelopment extension) c)
    (whenPresent massageContributes (contributes extension)).

(** [massageWhenConditions] mutates the descriptions in place; here it
    returns them.  [None] stands for a call ended by an exception (what it
    had already rewritten by then is not described). *)
Definition massageWhenConditions (extensions : list IExtensionDescription)
  : Throws (list IExtensionDescription) :=
  mapThrows massageExtension extensions.

(** Serializing a rewritten expression and parsing it back gives the
    expression: the round trip of [deserialize] and [serialize], asked
    only of the expressions the rewriter makes from the string [w]. *)
Definition reparses (w : string) : Prop :=
  forall expr massaged,
    deserialize w = Some expr ->
    exprMap _exprKeyMapper expr = Some massaged ->
    deserialize (serialize massaged) = Some massaged.

(** Every [when] string of a list of descriptions, in the order the
    rewriter visits them. *)
Definition whensOfUser (element : option WhenUser) : list string :=
  match element with
  | Some el => match when el with Some w => [w] | None => [] end
  | None => []
  end.

Definition whensOfUsers (elements : WhenUsers) : list string :=
  match elements with
  | OneWhenUser element => whensOfUser element
  | ManyWhenUsers l => flat_map whensOfUser l
  end.

Definition whensOfLoc (target : LocWhenUser) : list string :=
  flat_map (fun entry : string * WhenUsers => whensOfUsers (snd entry)) target.

Definition whensOfOpt {A} (f : A -> list string) (x : option A) : list string :=
  match x with
  | Some a => f a
  | None => []
  end.

Definition whensOfContributes (c : Contributes) : list string :=
  whensOfOpt whensOfLoc (menus c)
    ++ whensOfOpt whensOfUsers (keybindings c)
    ++ whensOfOpt whensOfLoc (views c).

Definition whensOf (extensions : list IExtensionDescription) : list string :=
  flat_map (fun e => whensOfOpt whensOfContributes (contributes e)) extensions.

End MassageWhenConditions.

(* ===================================================================== *)
(** * [getEnvironmentData] *)
(* ===================================================================== *)

(** [`${n}`] for a counter value. *)
Definition numberToString (n : N) : string :=
  NilEmpty.string_of_uint (N.to_uint n).

(** [2^53]: from this value on, adding one to a JavaScript number gives
    the number back. *)
Definition maxCounter : N := 9007199254740992%N.

(** [n++] on the counter, a JavaScript number that starts at [1] and is
    only ever incremented, so that it holds an integer of [1 .. 2^53]:
    the new value is [n + 1] below [2^53], and [2^53 + 1] is rounded back
    to [2^53]. *)
Definition postIncrement (n : N) : N :=
  if (n <? maxCounter)%N then (n + 1)%N else n.

Inductive OperatingSystem := Windows | Macintosh | Linux.

Section EnvironmentData.

(** [URI], [URI.file] and [join] of [vs/base/common]. *)
Variable URI : Type.
Variable URI_file : string -> URI.
Variable join : string -> string -> string.

Record INativeEnvironmentService := mkEnvironmentService {
  appRoot : string;
  machineSettingsResource : URI;
  logsPath : string;
  extensionsPath : string;
  globalStorageHome : URI;
  workspaceStorageHome : URI;
  userHome : URI
}.

Record RemoteAgentEnvironmentChannel := mkChannel {
  _connectionToken : string;
  environmentService : INativeEnvironmentService;
  process_pid : nat;
  platform_OS : OperatingSystem
}.

Record IRemoteAgentEnvironmentDTO := mkEnvironmentDTO {
  dto_pid : nat;
  dto_connectionToken : string;
  dto_appRoot : URI;
  dto_settingsPath : URI;
  dto_logsPath : URI;
  dto_extensionsPath : URI;
  dto_extensionHostLogsPath : URI;
  dto_globalStorageHome : URI;
  dto_workspaceStorageHome : URI;
  dto_userHome : URI;
  dto_os : OperatingSystem
}.

(** [private static _namePool = 1]. *)
Definition _namePool_initial : N := 1%N.

(** The name of the extension host log folder for a counter value. *)
Definition exthostName (n : N) : string :=
  ("exthost" ++ numberToString n)%string.

(** [getEnvironmentData]: the static counter [_namePool] is passed in and
    its value after [_namePool++] is passed out. *)
Definition getEnvironmentData (this : RemoteAgentEnvironmentChannel)
    (_namePool : N) : IRemoteAgentEnvironmentDTO * N :=
  let env := environmentService this in
  ({| dto_pid := process_pid this;
      dto_connectionToken := _connectionToken this;
      dto_appRoot := URI_file (appRoot env);
      dto_settingsPath := machineSettingsResource env;
      dto_logsPath := URI_file (logsPath env);
      dto_extensionsPath := URI_file (extensionsPath env);
      dto_extensionHostLogsPath :=
        URI_file (join (logsPath env) (exthostName _namePool));
      dto_globalStorageHome := globalStorageHome env;
      dto_workspaceStorageHome := workspaceStorageHome env;
      dto_userHome := userHome env;
      dto_os := platform_OS this |},
   postIncrement _namePool).

(** [k] calls in a row: what each returned, and the counter after the
    last. *)
Fixpoint getEnvironmentDataTimes (this : RemoteAgentEnvironmentChannel)
    (k : nat) (_namePool : N) : list IRemoteAgentEnvironmentDTO * N :=
  match k with
  | 0 => ([], _namePool)
  | S k' =>
      let (dto, pool1) := getEnvironmentData this _namePool in
      let (dtos, pool2) := getEnvironmentDataTimes this k' pool1 in
      (dto :: dtos, pool2)
  end.

End EnvironmentData.

(* ===================================================================== *)
(** * The web extension management service: data *)
(* ===================================================================== *)

Record IExtensionIdentifier := mkIdentifier {
  id : string;
  uuid : option string
}.

Inductive ExtensionType := System | User.

Inductive TargetPlatform := WEB | UNIVERSAL | UNKNOWN.

(** ['ui' | 'workspace' | 'web']. *)
Inductive ExtensionKind := ui | workspace | web.

Definition ExtensionKind_eqb (a b : ExtensionKind) : bool :=
  match a, b with
  | ui, ui | workspace, workspace | web, web => true
  | _, _ => false
  end.

(** Modelled from the spec: the enum [InstallOperation] is declared outside
    the sources; these are the two kinds the task computes. *)
Inductive InstallOperation := Install | Update.

Record IExtensionManifest := mkManifest {
  publisher : string;
  name : string;
  version : string
}.

Module Metadata.
(** [Metadata]: every property is optional. *)
Record t := mk {
  id : option string;
  publisherId : option string;
  publisherDisplayName : option string;
  installedTimestamp : option nat;
  isPreReleaseVersion : Js.optbool;
  isBuiltin : Js.optbool;
  isSystem : Js.optbool;
  updated : Js.optbool;
  preRelease : Js.optbool;
  isMachineScoped : Js.optbool;
  isApplicationScoped : Js.optbool
}.

(** [{}]. *)
Definition empty : t :=
  mk None None None None None None None None None None None.
End Metadata.

Module InstallOptions.
Record t := mk {
  isBuiltin : Js.optbool;
  isMachineScoped : Js.optbool;
  installPreReleaseVersion : Js.optbool;
  operation : option InstallOperation
}.

(** [{}]. *)
Definition empty : t := mk None None None None.
End InstallOptions.

Module Gallery.
Record Properties := mkProperties {
  isPreReleaseVersion : bool
}.

(** [IGalleryExtension]. *)
Record t := mk {
  identifier : IExtensionIdentifier;
  publisherId : string;
  publisherDisplayName : string;
  properties : Properties
}.
End Gallery.

Module Scanned.
(** [IScannedExtension] (an [IExtension] with its optional metadata). *)
Record t := mk {
  identifier : IExtensionIdentifier;
  type : ExtensionType;
  isBuiltin : bool;
  location : string;
  manifest : IExtensionManifest;
  metadata : option Metadata.t
}.
End Scanned.

Module Local.
(** [ILocalExtension] as [toLocalExtension] builds it: the properties of
    the scanned extension it spreads, then the ones it sets. *)
Record t := mk {
  extension : Scanned.t;
  identifier : IExtensionIdentifier;
  isMachineScoped : bool;
  isApplicationScoped : bool;
  publisherId : option string;
  publisherDisplayName : option string;
  installedTimestamp : option nat;
  isPreReleaseVersion : bool;
  preRelease : bool;
  targetPlatform : TargetPlatform;
  updated : bool
}.
End Local.

(** [function getMetadata(options?, existingExtension?)]. *)
Definition getMetadata (options : option InstallOptions.t)
    (existingExtension : option Scanned.t) : Metadata.t :=
  let metadata :=
    match existingExtension with
    | Some e =>
        match Scanned.metadata e with
        | Some m => m
        | None => Metadata.empty
        end
    | None => Metadata.empty
    end in
  let optionsMachineScoped :=
    match options with
    | Some o => InstallOptions.isMachineScoped o
    | None => None
    end in
  {| Metadata.id := Metadata.id metadata;
     Metadata.publisherId := Metadata.publisherId metadata;
     Metadata.publisherDisplayName := Metadata.publisherDisplayName metadata;
     Metadata.installedTimestamp := Metadata.installedTimestamp metadata;
     Metadata.isPreReleaseVersion := Metadata.isPreReleaseVersion metadata;
     Metadata.isBuiltin := Metadata.isBuiltin metadata;
     Metadata.isSystem := Metadata.isSystem metadata;
     Metadata.updated := Metadata.updated metadata;
     Metadata.preRelease := Metadata.preRelease metadata;
     Metadata.isMachineScoped :=
       Js.or optionsMachineScoped (Metadata.isMachineScoped metadata);
     Metadata.isApplicationScoped := Metadata.isApplicationScoped metadata |}.

(** [function toLocalExtension(extension)]. *)
Definition toLocalExtension (extension : Scanned.t) : Local.t :=
  let metadata := getMetadata None (Some extension) in
  {| Local.extension := extension;
     Local.identifier :=
       mkIdentifier (id (Scanned.identifier extension))
         (Js.nullish (Metadata.id metadata) (uuid (Scanned.identifier extension)));
     Local.isMachineScoped := Js.truthy (Metadata.isMachineScoped metadata);
     Local.isApplicationScoped := Js.truthy (Metadata.isApplicationScoped metadata);
     Local.publisherId := Js.str_or_null (Metadata.publisherId metadata);
     Local.publisherDisplayName :=
       Js.str_or_null (Metadata.publisherDisplayName metadata);
     Local.installedTimestamp := Metadata.installedTimestamp metadata;
     Local.isPreReleaseVersion := Js.truthy (Metadata.isPreReleaseVersion metadata);
     Local.preRelease := Js.truthy (Metadata.preRelease metadata);
     Local.targetPlatform := WEB;
     Local.updated := Js.truthy (Metadata.updated metadata) |}.

(* ===================================================================== *)
(** * Asynchronous code and its collaborators *)
(* ===================================================================== *)

Module GalleryMetadata.
(** [IGalleryMetadata]. *)
Record t := mk {
  id : string;
  publisherId : string;
  publisherDisplayName : string;
  isPreReleaseVersion : bool
}.
End GalleryMetadata.

(** The calls the service and its tasks make on what surrounds them: the
    web extensions scanner service (the store of installed extensions),
    the base class [AbstractExtensionManagementService], and the clock. *)
Inductive Call : Type -> Type :=
| scanSystemExtensions : Call (list Scanned.t)
| scanUserExtensions : Call (list Scanned.t)
| scanMetadata (location : string) : Call (option Metadata.t)
| addExtension (location : string) (metadata : Metadata.t) : Call Scanned.t
| addExtensionFromGallery (gallery : Gallery.t) (metadata : Metadata.t)
    : Call Scanned.t
| removeExtension (identifier : IExtensionIdentifier) : Call unit
| super_canInstall (gallery : Gallery.t) : Call bool
| super_getCompatibleVersion (extension : Gallery.t)
    (sameVersion includePreRelease : bool) : Call (option Gallery.t)
| Date_now : Call nat.

(** Whether a call reads or writes the installed store. *)
Definition touchesStore {X} (c : Call X) : bool :=
  match c with
  | scanSystemExtensions | scanUserExtensions | scanMetadata _
  | addExtension _ _ | addExtensionFromGallery _ _ | removeExtension _ => true
  | super_canInstall _ | super_getCompatibleVersion _ _ _ | Date_now => false
  end.

(** An [async] body: it returns, or awaits a call and goes on with its
    answer. *)
Inductive Async (A : Type) : Type :=
| Return (a : A)
| Await (X : Type) (c : Call X) (k : X -> Async A).

Arguments Return {A} a.
Arguments Await {A X} c k.

Fixpoint bind {A B} (m : Async A) (f : A -> Async B) : Async B :=
  match m with
  | Return a => f a
  | Await c k => Await c (fun x => bind (k x) f)
  end.

Definition await {X} (c : Call X) : Async X := Await c Return.

Declare Scope async_scope.
Delimit Scope async_scope with async.
Notation "x <- c ;; k" := (bind c (fun x => k))
  (at level 61, c at next level, right associativity) : async_scope.
Local Open Scope async_scope.

Inductive Event := event (X : Type) (c : Call X).
Arguments event {X} c.

Definition eventTouchesStore (e : Event) : bool :=
  match e with
  | event c => touchesStore c
  end.

(** What answers the calls: a state and, for every call, its answer (or
    [None] when the call fails) and the state it leaves. *)
Record Host (S : Type) := mkHost {
  handle : forall X, Call X -> S -> Throws X * S
}.

Arguments handle {S} h {X} c s.

Record Outcome (S A : Type) := mkOutcome {
  result : Throws A;
  final : S;
  trace : list Event
}.

Fixpoint run {S A} (h : Host S) (m : Async A) (s : S) : Outcome S A :=
  match m with
  | Return a => mkOutcome (Some a) s []
  | Await c k =>
      match handle h c s with
      | (None, s') => mkOutcome None s' [event c]
      | (Some x, s') =>
          let o := run h (k x) s' in
          mkOutcome (result o) (final o) (event c :: trace o)
      end
  end.

(* ===================================================================== *)
(** * [WebExtensionManagementService] and its tasks *)
(* ===================================================================== *)

(** [URI | IGalleryExtension]. *)
Inductive InstallSource :=
| FromUri (location : string)
| FromGallery (gallery : Gallery.t).

Definition isUri (extension : InstallSource) : bool :=
  match extension with
  | FromUri _ => true
  | FromGallery _ => false
  end.

Definition isSome {A} (x : option A) : bool :=
  match x with
  | Some _ => true
  | None => false
  end.

Module InstallExtensionTask.
(** The fields of [class InstallExtensionTask]; [source] and [extension]
    hold the same value. *)
Record t := mk {
  identifier : IExtensionIdentifier;
  source : InstallSource;
  options : InstallOptions.t;
  _operation : InstallOperation
}.
End InstallExtensionTask.

Module UninstallExtensionTask.
Record t := mk {
  extension : Local.t
}.
End UninstallExtensionTask.

Section WebExtensionManagementService.

(** [areSameExtensions] and [getGalleryExtensionId] of
    [extensionManagementUtil], and
    [extensionManifestPropertiesService.getUserConfiguredExtensionKind]. *)
Variable areSameExtensions : IExtensionIdentifier -> IExtensionIdentifier -> bool.
Variable getGalleryExtensionId : string -> string -> string.
Variable getUserConfiguredExtensionKind
  : IExtensionIdentifier -> option (list ExtensionKind).

Definition getTargetPlatform : Async TargetPlatform := Return WEB.

Definition isConfiguredToExecuteOnWeb (gallery : Gallery.t) : bool :=
  match getUserConfiguredExtensionKind (Gallery.identifier gallery) with
  | Some configuredExtensionKind =>
      existsb (ExtensionKind_eqb web) configuredExtensionKind
  | None => false
  end.

Definition canInstall (gallery : Gallery.t) : Async bool :=
  compatible <- await (super_canInstall gallery) ;;
  if compatible : bool then Return true
  else if isConfiguredToExecuteOnWeb gallery then Return true
  else Return false.

Definition getInstalled (type : option ExtensionType) : Async (list Local.t) :=
  systemExtensions <-
    match type with
    | None | Some System => await scanSystemExtensions
    | Some User => Return []
    end ;;
  userExtensions <-
    match type with
    | None | Some User => await scanUserExtensions
    | Some System => Return []
    end ;;
  Return (map toLocalExtension (systemExtensions ++ userExtensions)).

Definition service_getMetadata (extension : Local.t)
  : Async (option Metadata.t) :=
  await (scanMetadata (Scanned.location (Local.extension extension))).

Definition getCompatibleVersion (extension : Gallery.t)
    (sameVersion includePreRelease : bool) : Async (option Gallery.t) :=
  compatibleExtension <-
    await (super_getCompatibleVersion extension sameVersion includePreRelease) ;;
  match compatibleExtension with
  | Some c => Return (Some c)
  | None =>
      if isConfiguredToExecuteOnWeb extension then Return (Some extension)
      else Return None
  end.

Definition updateMetadata (local : Local.t) (metadata : GalleryMetadata.t)
  : Async Local.t :=
  Return local.

(** [new InstallExtensionTask(manifest, extension, options, ...)]. *)
Definition newInstallExtensionTask (manifest : IExtensionManifest)
    (extension : InstallSource) (options : InstallOptions.t)
  : InstallExtensionTask.t :=
  {| InstallExtensionTask.identifier :=
       match extension with
       | FromUri _ =>
           mkIdentifier
             (getGalleryExtensionId (publisher manifest) (name manifest)) None
       | FromGallery gallery => Gallery.identifier gallery
       end;
     InstallExtensionTask.source := extension;
     InstallExtensionTask.options := options;
     InstallExtensionTask._operation := Install |}.

(** [get operation()]. *)
Definition operation (this : InstallExtensionTask.t) : InstallOperation :=
  match InstallOptions.operation (InstallExtensionTask.options this) with
  | None => InstallExtensionTask._operation this
  | Some op => op
  end.

(** [userExtensions.find(e => areSameExtensions(e.identifier, this.identifier))]. *)
Definition findExisting (this : InstallExtensionTask.t)
    (userExtensions : list Scanned.t) : option Scanned.t :=
  find (fun e => areSameExtensions (Scanned.identifier e)
                   (InstallExtensionTask.identifier this))
    userExtensions.

(** The assignments of [doRun] under [if (!URI.isUri(this.extension))]. *)
Definition galleryMetadata (options : InstallOptions.t)
    (existingExtension : option Scanned.t) (gallery : Gallery.t) (now : nat)
    (metadata : Metadata.t) : Metadata.t :=
  let isPreReleaseVersion :=
    Gallery.isPreReleaseVersion (Gallery.properties gallery) in
  {| Metadata.id := uuid (Gallery.identifier gallery);
     Metadata.publisherId := Some (Gallery.publisherId gallery);
     Metadata.publisherDisplayName := Some (Gallery.publisherDisplayName gallery);
     Metadata.installedTimestamp := Some now;
     Metadata.isPreReleaseVersion := Some isPreReleaseVersion;
     Metadata.isBuiltin :=
       Js.or (InstallOptions.isBuiltin options)
         (option_map Scanned.isBuiltin existingExtension);
     Metadata.isSystem :=
       match existingExtension with
       | Some e =>
           match Scanned.type e with
           | System => Some true
           | User => None
           end
       | None => None
       end;
     Metadata.updated := Some (isSome existingExtension);
     Metadata.preRelease :=
       Js.or (Some isPreReleaseVersion)
         (if Js.isBoolean (InstallOptions.installPreReleaseVersion options)
          then InstallOptions.installPreReleaseVersion options
          else Metadata.preRelease metadata);
     Metadata.isMachineScoped := Metadata.isMachineScoped metadata;
     Metadata.isApplicationScoped := Metadata.isApplicationScoped metadata |}.

(** [InstallExtensionTask.doRun]: the task as the run leaves it (its
    field [_operation] may have been assigned) and the value returned. *)
Definition doRun (this : InstallExtensionTask.t)
  : Async (InstallExtensionTask.t * (Local.t * Metadata.t)) :=
  userExtensions <- await scanUserExtensions ;;
  let existingExtension := findExisting this userExtensions in
  let this :=
    match existingExtension with
    | Some _ =>
        {| InstallExtensionTask.identifier := InstallExtensionTask.identifier this;
           InstallExtensionTask.source := InstallExtensionTask.source this;
           InstallExtensionTask.options := InstallExtensionTask.options this;
           InstallExtensionTask._operation := Update |}
    | None => this
    end in
  let options := InstallExtensionTask.options this in
  let metadata := getMetadata (Some options) existingExtension in
  match InstallExtensionTask.source this with
  | FromUri location =>
      scannedExtension <- await (addExtension location metadata) ;;
      Return (this, (toLocalExtension scannedExtension, metadata))
  | FromGallery gallery =>
      now <- await Date_now ;;
      let metadata :=
        galleryMetadata options existingExtension gallery now metadata in
      scannedExtension <- await (addExtensionFromGallery gallery metadata) ;;
      Return (this, (toLocalExtension scannedExtension, metadata))
  end.

(** [UninstallExtensionTask.doRun]. *)
Definition uninstall_doRun (this : UninstallExtensionTask.t) : Async unit :=
  await (removeExtension
           (Local.identifier (UninstallExtensionTask.extension this))).

End WebExtensionManagementService.

(* ===================================================================== *)
(** * Reading the merged result *)
(* ===================================================================== *)

(** The keys of a list, each at the place of its first occurrence. *)
Definition addKey (seen : list string) (k : string) : list string :=
  if existsb (String.eqb k) seen then seen else seen ++ [k].

Definition firstOccurrences (ks : list string) : list string :=
  fold_left addKey ks [].

Section ScanExtensionsReading.

Variable toKey : ExtensionIdentifier -> string.

(** The keys a scan yields, in the order it yields them. *)
Definition keysOfScan (src : list (option IExtensionDescription))
  : list string :=
  map (keyOf toKey) (yielded src).

(** The warning an installed description gives rise to when the builtin
    descriptions hold one with its key. *)
Definition collision (builtin : list IExtensionDescription)
    (installed : IExtensionDescription) : list Warning :=
  match find (fun b => String.eqb (keyOf toKey b) (keyOf toKey installed))
          builtin with
  | Some b =>
      [mkWarning (extensionLocation b) (extensionLocation installed)]
  | None => []
  end.

End ScanExtensionsReading.

(* ===================================================================== *)
(** * Reading the rewritten descriptions *)
(* ===================================================================== *)

(** A description with the text of every [when] clause blanked: what is
    left is everything the rewriter is not meant to touch, and which
    entries carry a clause at all. *)
Definition blankWhenUser (element : option WhenUser) : option WhenUser :=
  option_map
    (fun el => mkWhenUser (option_map (fun _ => "") (when el)) (props el))
    element.

Definition blankWhenUsers (elements : WhenUsers) : WhenUsers :=
  match elements with
  | OneWhenUser element => OneWhenUser (blankWhenUser element)
  | ManyWhenUsers l => ManyWhenUsers (map blankWhenUser l)
  end.

Definition blankLocWhenUser (target : LocWhenUser) : LocWhenUser :=
  map (fun entry : string * WhenUsers =>
         (fst entry, blankWhenUsers (snd entry)))
    target.

Definition blankContributes (c : Contributes) : Contributes :=
  mkContributes (option_map blankLocWhenUser (menus c))
    (option_map blankWhenUsers (keybindings c))
    (option_map blankLocWhenUser (views c)).

Definition blankExtension (e : IExtensionDescription) : IExtensionDescription :=
  mkExtensionDescription (identifier e) (extensionLocation e) (isBuiltinDesc e)
    (isUnderDevelopment e) (option_map blankContributes (contributes e)).

(** The keys of the atoms of an expression. *)
Fixpoint atomKeys (e : ContextKeyExpression) : list string :=
  match e with
  | ContextKeyDefinedExpr key => [key]
  | ContextKeyNotExpr key => [key]
  | ContextKeyEqualsExpr key _ => [key]
  | ContextKeyNotEqualsExpr key _ => [key]
  | ContextKeyRegexExpr key _ => [key]
  | ContextKeyInExpr key _ => [key]
  | ContextKeyAndExpr es => flat_map atomKeys es
  | ContextKeyOrExpr es => flat_map atomKeys es
  end.

(** The flags string [_mapResourceRegExpValue] builds from the three flags
    it reads (lines 181 to 184). *)
Definition rebuiltFlags (value : RegExp) : string :=
  ((if global value then "g" else "")
   ++ (if ignoreCase value then "i" else "")
   ++ (if multiline value then "m" else ""))%string.

(** The regular expressions the mapper rewrites: those of the [=~] atoms
    on [resourceScheme] that hold an expression. *)
Fixpoint resourceRegExps (e : ContextKeyExpression) : list RegExp :=
  match e with
  | ContextKeyRegexExpr key (Some r) =>
      if String.eqb key "resourceScheme" then [r] else []
  | ContextKeyAndExpr es => flat_map resourceRegExps es
  | ContextKeyOrExpr es => flat_map resourceRegExps es
  | _ => []
  end.

(** What the engine is asked when [_mapResourceRegExpValue] rebuilds an
    expression: the rewritten source with the rebuilt flags. *)
Definition rebuildAccepted (regexpAccepts : string -> string -> bool)
    (r : RegExp) : bool :=
  regexpAccepts (_mapResourceSchemeValue (source r) true) (rebuiltFlags r).

(* ===================================================================== *)
(** * Reading the trace of a run *)
(* ===================================================================== *)

(** Whether a call changes the installed store. *)
Definition writesStore {X} (c : Call X) : bool :=
  match c with
  | addExtension _ _ | addExtensionFromGallery _ _ | removeExtension _ => true
  | _ => false
  end.

Definition eventWritesStore (e : Event) : bool :=
  match e with
  | event c => writesStore c
  end.

(* ===================================================================== *)
(** * The three scans and the [scanExtensions] method *)
(* ===================================================================== *)

(** [!s] for [s : string | null | undefined]: the empty string is falsy. *)
Definition falsyString (s : option string) : bool :=
  match s with
  | None => true
  | Some s' => String.eqb s' ""
  end.

(** The module variables [_SystemExtensionsRoot] and
    [_ExtraDevSystemExtensionsRoot]. *)
Record Roots := mkRoots {
  _SystemExtensionsRoot : option string;
  _ExtraDevSystemExtensionsRoot : option string
}.

Definition initialRoots : Roots := mkRoots None None.

(** The arguments of [new ExtensionScannerInput(...)], in their order. *)
Record ExtensionScannerInput (Translations : Type) := mkScannerInput {
  input_version : string;
  input_commit : option string;
  input_language : string;
  input_devMode : bool;
  input_path : string;
  input_isBuiltin : bool;
  input_isUnderDevelopment : bool;
  input_translations : Translations
}.

Record IBuiltInExtension := mkBuiltInExtension {
  builtInExtension_name : string
}.

Record IExtensionReference := mkExtensionReference {
  reference_name : string;
  reference_path : string
}.

(** What [getNLSConfiguration] resolves to: a configuration that
    [InternalNLSConfiguration.is] accepts, with its
    [_translationsConfigFile], or another one. *)
Inductive NLSConfiguration :=
| InternalNLSConfiguration (_translationsConfigFile : string)
| OtherNLSConfiguration.

Section Scans.

Variable toKey : ExtensionIdentifier -> string.

(** [Translations], [Object.create(null)] and [{}]. *)
Variable Translations : Type.
Variable Object_create_null : Translations.
Variable emptyObject : Translations.

(** [product.version], [product.commit], [product.builtInExtensions] and
    [process.env['VSCODE_DEV']]. *)
Variable product_version : string.
Variable product_commit : option string.
Variable product_builtInExtensions : option (list IBuiltInExtension).
Variable process_env_VSCODE_DEV : option string.

(** [environmentService.userDataPath] and [environmentService.extensionsPath]. *)
Variable userDataPath : string.
Variable environment_extensionsPath : string.

(** [getPathFromAmdModule(require, '')], [normalize] and the variadic
    [join]. *)
Variable getPathFromAmdModule : string.
Variable normalize : string -> string.
Variable joinAll : list string -> string.

(** The promises of [ExtensionScanner], [getNLSConfiguration],
    [pfs.readFile] and [JSON.parse]: [None] is a rejection (an exception
    for [JSON.parse]).  A resolver is given by the references it
    resolves to. *)
Variable ExtensionScanner_scanExtensions :
  ExtensionScannerInput Translations -> option (list IExtensionReference) ->
  Throws (list (option IExtensionDescription)).
Variable ExtensionScanner_scanOneOrMultipleExtensions :
  ExtensionScannerInput Translations ->
  Throws (list (option IExtensionDescription)).
Variable ExtensionScanner_mergeBuiltinExtensions :
  Throws (list (option IExtensionDescription)) ->
  Throws (list (option IExtensionDescription)) ->
  Throws (list (option IExtensionDescription)).
Variable getNLSConfiguration : string -> string -> Throws NLSConfiguration.
Variable pfs_readFile : string -> Throws string.
Variable JSON_parse : string -> Throws Translations.

(** [if (!_SystemExtensionsRoot) { _SystemExtensionsRoot = ... } return
    _SystemExtensionsRoot]. *)
Definition getSystemExtensionsRoot (roots : Roots) : string * Roots :=
  let roots :=
    if falsyString (_SystemExtensionsRoot roots)
    then mkRoots
           (Some (normalize
                    (joinAll [getPathFromAmdModule; ".."; "extensions"])))
           (_ExtraDevSystemExtensionsRoot roots)
    else roots in
  (match _SystemExtensionsRoot roots with
   | Some root => root
   | None => ""
   end, roots).

Definition getExtraDevSystemExtensionsRoot (roots : Roots) : string * Roots :=
  let roots :=
    if falsyString (_ExtraDevSystemExtensionsRoot roots)
    then mkRoots (_SystemExtensionsRoot roots)
           (Some (normalize
                    (joinAll [getPathFromAmdModule; ".."; ".build";
                              "builtInExtensions"])))
    else roots in
  (match _ExtraDevSystemExtensionsRoot roots with
   | Some root => root
   | None => ""
   end, roots).

(** [scanDevelopedExtensions]: one scan for each path, all of them
    awaited by [Promise.all], their results concatenated in a loop. *)
Definition scanDevelopedExtensions (language : string)
    (translations : Translations)
    (extensionDevelopmentPaths : option (list string))
  : Throws (list (option IExtensionDescription)) :=
  match extensionDevelopmentPaths with
  | Some paths =>
      let extDescsP :=
        mapThrows
          (fun extDevPath =>
             ExtensionScanner_scanOneOrMultipleExtensions
               (mkScannerInput product_version product_commit language
                  true extDevPath false true translations))
          paths in
      option_map
        (fun extDescArrays =>
           fold_left (fun extDesc eds => extDesc ++ eds) extDescArrays [])
        extDescsP
  | None => Some []
  end.

(** [ExtraBuiltInExtensionResolver.resolveExtensions]. *)
Definition resolveExtensions (builtInExtensions : list IBuiltInExtension)
    (roots : Roots) : list IExtensionReference * Roots :=
  fold_left
    (fun (acc : list IExtensionReference * Roots) ext =>
       let (root, roots') := getExtraDevSystemExtensionsRoot (snd acc) in
       (fst acc
          ++ [mkExtensionReference (builtInExtension_name ext)
                (joinAll [root; builtInExtension_name ext])],
        roots'))
    builtInExtensions ([], roots).

Definition scanBuiltinExtensions (language : string)
    (translations : Translations) (roots : Roots)
  : Throws (list (option IExtensionDescription)) * Roots :=
  let version := product_version in
  let commit := product_commit in
  let devMode := negb (falsyString process_env_VSCODE_DEV) in
  let (systemRoot, roots) := getSystemExtensionsRoot roots in
  let input :=
    mkScannerInput version commit language devMode systemRoot true false
      translations in
  let builtinExtensions := ExtensionScanner_scanExtensions input None in
  if devMode
  then
    let builtInExtensions :=
      match product_builtInExtensions with
      | Some l => l
      | None => []
      end in
    let (extraRoot, roots) := getExtraDevSystemExtensionsRoot roots in
    let input :=
      mkScannerInput version commit language devMode extraRoot true false
        emptyObject in
    let (references, roots) := resolveExtensions builtInExtensions roots in
    let extraBuiltinExtensions :=
      ExtensionScanner_scanExtensions input (Some references) in
    (ExtensionScanner_mergeBuiltinExtensions builtinExtensions
       extraBuiltinExtensions, roots)
  else (builtinExtensions, roots).

Definition scanInstalledExtensions (language : string)
    (translations : Translations)
  : Throws (list (option IExtensionDescription)) :=
  ExtensionScanner_scanExtensions
    (mkScannerInput product_version product_commit language true
       environment_extensionsPath false true translations)
    None.

(** The second [then] of the [scanExtensions] method: the three scans
    are started, [Promise.all] waits for them, and the merge runs on
    their results. *)
Definition scanWithTranslations (language : string)
    (extensionDevelopmentPath : option (list string))
    (translations : Translations) (roots : Roots)
  : Throws (list IExtensionDescription * list Warning) * Roots :=
  let (builtinP, roots) := scanBuiltinExtensions language translations roots in
  let installedP := scanInstalledExtensions language translations in
  let developedP :=
    scanDevelopedExtensions language translations extensionDevelopmentPath in
  match builtinP, installedP, developedP with
  | Some builtinExtensions, Some installedExtensions,
    Some developedExtensions =>
      (Some (scanExtensions_console toKey builtinExtensions
               installedExtensions developedExtensions), roots)
  | _, _, _ => (None, roots)
  end.

(** The first [then]: the translations of the language pack.  The
    rejection handler is the second argument of the [then] that parses,
    so it answers for [readFile] and not for [JSON.parse]. *)
Definition loadTranslations (config : NLSConfiguration) : Throws Translations :=
  match config with
  | InternalNLSConfiguration _translationsConfigFile =>
      match pfs_readFile _translationsConfigFile with
      | Some content => JSON_parse content
      | None => Some Object_create_null
      end
  | OtherNLSConfiguration => Some Object_create_null
  end.

(** The [scanExtensions] method of the channel. *)
Definition scanExtensions_method (language : string)
    (extensionDevelopmentPath : option (list string)) (roots : Roots)
  : Throws (list IExtensionDescription * list Warning) * Roots :=
  match getNLSConfiguration language userDataPath with
  | None => (None, roots)
  | Some config =>
      match loadTranslations config with
      | None => (None, roots)
      | Some translations =>
          scanWithTranslations language extensionDevelopmentPath translations
            roots
      end
  end.

End Scans.

(* ===================================================================== *)
(** * Concrete data for the examples *)
(* ===================================================================== *)

Module Examples.

Definition toLowerAscii (c : ascii) : ascii :=
  let n := nat_of_ascii c in
  if ((65 <=? n)%nat && (n <=? 90)%nat)%bool then ascii_of_nat (n + 32) else c.

Fixpoint toLowerCase (s : string) : string :=
  match s with
  | EmptyString => EmptyString
  | String c s' => String (toLowerAscii c) (toLowerCase s')
  end.

(** The key of an identifier: its value in lower case. *)
Definition toKey (i : ExtensionIdentifier) : string := toLowerCase (value i).

Definition description (identifier location : string) : IExtensionDescription :=
  mkExtensionDescription (mkExtensionIdentifier identifier) location
    false false None.

Definition sysLint := description "acme.lint" "/sys/acme.lint".
Definition userLint := description "Acme.Lint" "/user/acme.lint".
Definition devLint := description "acme.lint" "/dev/acme.lint".
Definition sysGit := description "vscode.git" "/sys/git".

(** A host with POSIX paths: [join] puts a slash between the folder and
    the name, [URI.file] puts the scheme in front. *)
Definition join (a b : string) : string := (a ++ "/" ++ b)%string.
Definition URI_file (path : string) : string := ("file://" ++ path)%string.

Definition environment : INativeEnvironmentService string :=
  {| appRoot := "/opt/app";
     machineSettingsResource := "file:///home/u/.app/settings.json";
     logsPath := "/home/u/.app/logs";
     extensionsPath := "/home/u/.app/extensions";
     globalStorageHome := "file:///home/u/.app/globalStorage";
     workspaceStorageHome := "file:///home/u/.app/workspaceStorage";
     userHome := "file:///home/u" |}.

Definition channel : RemoteAgentEnvironmentChannel string :=
  {| _connectionToken := "token";
     environmentService := environment;
     process_pid := 4242;
     platform_OS := Linux |}.

(** Identifiers are the same extension when their ids agree up to case;
    the gallery id of a manifest is [publisher.name] in lower case. *)
Definition areSameExtensions (a b : IExtensionIdentifier) : bool :=
  String.eqb (toLowerCase (id a)) (toLowerCase (id b)).

Definition getGalleryExtensionId (publisher name : string) : string :=
  toLowerCase (publisher ++ "." ++ name).

(** The user has configured [beta.fmt] to run as a web extension. *)
Definition getUserConfiguredExtensionKind (i : IExtensionIdentifier)
  : option (list ExtensionKind) :=
  if String.eqb (id i) "beta.fmt" then Some [workspace; web] else None.

Definition manifest : IExtensionManifest := mkManifest "beta" "fmt" "1.0.0".

Definition notSame (i : IExtensionIdentifier) (e : Scanned.t) : bool :=
  negb (areSameExtensions (Scanned.identifier e) i).

(** A store of user extensions held in memory; the base class finds
    nothing compatible, and the clock stands at [1000]. *)
Definition memoryHandle (X : Type) (c : Call X) (s : list Scanned.t)
  : Throws X * list Scanned.t :=
  match c in Call X return Throws X * list Scanned.t with
  | scanSystemExtensions => (Some [], s)
  | scanUserExtensions => (Some s, s)
  | scanMetadata location =>
      (Some match find (fun e => String.eqb (Scanned.location e) location) s with
            | Some e => Scanned.metadata e
            | None => None
            end, s)
  | addExtension location metadata =>
      let i := mkIdentifier (getGalleryExtensionId (publisher manifest)
                               (name manifest)) None in
      let e := Scanned.mk i User false location manifest (Some metadata) in
      (Some e, filter (notSame i) s ++ [e])
  | addExtensionFromGallery gallery metadata =>
      let i := Gallery.identifier gallery in
      let e := Scanned.mk i User false ("/user/" ++ id i) manifest
                 (Some metadata) in
      (Some e, filter (notSame i) s ++ [e])
  | removeExtension i => (Some tt, filter (notSame i) s)
  | super_canInstall _ => (Some false, s)
  | super_getCompatibleVersion _ _ _ => (Some None, s)
  | Date_now => (Some 1000, s)
  end.

Definition host : Host (list Scanned.t) := mkHost memoryHandle.

Definition betaFmt (isPreReleaseVersion : bool) : Gallery.t :=
  Gallery.mk (mkIdentifier "beta.fmt" (Some "U1")) "P1" "Beta"
    (Gallery.mkProperties isPreReleaseVersion).

Definition nativeTool : Gallery.t :=
  Gallery.mk (mkIdentifier "acme.native" (Some "U2")) "P2" "Acme"
    (Gallery.mkProperties false).

(** [beta.fmt] as a first install of its pre-release leaves it. *)
Definition installedBetaFmt : Scanned.t :=
  Scanned.mk (mkIdentifier "beta.fmt" (Some "U1")) User false "/user/beta.fmt"
    manifest
    (Some (Metadata.mk (Some "U1") (Some "P1") (Some "Beta") (Some 1000)
             (Some true) None None (Some false) (Some true) None None)).

(** [beta.fmt] as an install from a location leaves it: no metadata. *)
Definition sideloadedBetaFmt : Scanned.t :=
  Scanned.mk (mkIdentifier "beta.fmt" None) User false "/tmp/beta.fmt"
    manifest None.

Definition machineScopedBetaFmt : Scanned.t :=
  Scanned.mk (mkIdentifier "beta.fmt" None) User false "/tmp/beta.fmt"
    manifest
    (Some (Metadata.mk None None None None None None None None None
             (Some true) None)).

Definition optionsNoPreRelease : InstallOptions.t :=
  InstallOptions.mk None None (Some false) None.

Definition optionsForceInstall : InstallOptions.t :=
  InstallOptions.mk None None None (Some Install).

Definition optionsNotMachineScoped : InstallOptions.t :=
  InstallOptions.mk None (Some false) None None.

Definition optionsNoPreReleaseForceInstall : InstallOptions.t :=
  InstallOptions.mk None None (Some false) (Some Install).

(** Installing [extension] with [options] over the user extensions
    [installed]. *)
Definition install (extension : InstallSource) (options : InstallOptions.t)
    (installed : list Scanned.t)
  : Throws (InstallExtensionTask.t * (Local.t * Metadata.t)) :=
  result (run host
            (doRun areSameExtensions
               (newInstallExtensionTask getGalleryExtensionId manifest
                  extension options))
            installed).

(** A small reader and printer of [when] clauses for the examples: the
    reader knows [key == value] (the value quoted or not) and a bare
    key, and has no reading of a clause with a parenthesis. *)
Definition unquote (v : string) : string :=
  let n := String.length v in
  if ((2 <=? n)%nat && String.prefix "'" v
      && match String.get (n - 1) v with
         | Some c => Ascii.eqb c "'"
         | None => false
         end)%bool
  then String.substring 1 (n - 2) v
  else v.

Definition deserialize (w : string) : option ContextKeyExpression :=
  if contains "(" w then None
  else
    match String.index 0 " == " w with
    | Some i =>
        Some (ContextKeyEqualsExpr (String.substring 0 i w)
                (VString (unquote (String.substring (i + 4)
                                     (String.length w - i - 4) w))))
    | None => Some (ContextKeyDefinedExpr w)
    end.

Definition flagsOf (r : RegExp) : string :=
  ((if global r then "g" else "") ++ (if ignoreCase r then "i" else "")
     ++ (if multiline r then "m" else ""))%string.

Fixpoint serialize (e : ContextKeyExpression) : string :=
  match e with
  | ContextKeyDefinedExpr key => key
  | ContextKeyNotExpr key => "!" ++ key
  | ContextKeyEqualsExpr key (VString v) => key ++ " == '" ++ v ++ "'"
  | ContextKeyEqualsExpr key (VBoolean b) => if b then key else "!" ++ key
  | ContextKeyNotEqualsExpr key (VString v) => key ++ " != '" ++ v ++ "'"
  | ContextKeyNotEqualsExpr key (VBoolean b) => if b then "!" ++ key else key
  | ContextKeyRegexExpr key (Some r) =>
      key ++ " =~ /" ++ source r ++ "/" ++ flagsOf r
  | ContextKeyRegexExpr key None => key ++ " =~ /invalid/"
  | ContextKeyInExpr key valueKey => key ++ " in '" ++ valueKey ++ "'"
  | ContextKeyAndExpr es => String.concat " && " (map serialize es)
  | ContextKeyOrExpr es => String.concat " || " (map serialize es)
  end%string.

Definition regexpAccepts (pattern flags : string) : bool := true.


(** An engine that takes no pattern with an opening parenthesis, and a
    reader that knows one clause with a regular expression. *)
Definition strictEngine (pattern flags : string) : bool :=
  negb (contains "(" pattern).

Definition regexReader (w : string) : option ContextKeyExpression :=
  if String.eqb w "resourceScheme =~ /^file$/i"
  then Some (ContextKeyRegexExpr "resourceScheme"
               (Some (mkRegExp "^file$" false true false "")))
  else deserialize w.

Definition entryOf (w : string) : WhenUser :=
  mkWhenUser (Some w) [("command", "acme.lint.run")].

Definition entry (w : string) : option WhenUser := Some (entryOf w).

(** An extension with two menu entries (and a [null] one), a single
    keybinding, and no views. *)
Definition contributing (menuWhen1 menuWhen2 keyWhen : string)
  : IExtensionDescription :=
  mkExtensionDescription (mkExtensionIdentifier "acme.lint") "/user/acme.lint"
    false false
    (Some (mkContributes
             (Some [("explorer/context",
                     ManyWhenUsers [entry menuWhen1; None; entry menuWhen2])])
             (Some (OneWhenUser (entry keyWhen)))
             None)).

Definition lintExtension : IExtensionDescription :=
  contributing "resourceScheme == file" "editorFocus"
    "resourceScheme == 'untitled'".

Definition lintExtensionMassaged : IExtensionDescription :=
  contributing "resourceScheme == 'vscode-remote'" "editorFocus"
    "resourceScheme == 'untitled'".




(** An extension with a regular expression on the resource scheme, a
    clause on another key and a clause the reader cannot read. *)
Definition regexExtension : IExtensionDescription :=
  contributing "resourceScheme =~ /^file$/i" "editorFocus"
    "resourceScheme == (file".

Definition regexExtensionMassaged : IExtensionDescription :=
  contributing "resourceScheme =~ /^vscode-remote$/i" "editorFocus"
    "resourceScheme == (file".

(** A second description of [acme.lint] in the same folder scan. *)
Definition userLint2 := description "ACME.lint" "/user/acme.lint-2".
Definition userGit := description "vscode.git" "/user/git".

(** An extension none of whose clauses mentions the resource scheme. *)
Definition plainExtension : IExtensionDescription :=
  contributing "editorFocus" "file == open" "view == files".

(** A [when] expression over other keys, with the word [file] in it. *)
Definition plainExpression : ContextKeyExpression :=
  ContextKeyAndExpr
    [ContextKeyEqualsExpr "scheme" (VString "file");
     ContextKeyOrExpr
       [ContextKeyRegexExpr "resourceFilename"
          (Some (mkRegExp "file" true false false "u"));
        ContextKeyNotExpr "isFileSystemResource"]].

(** A builtin extension of the system scan, installed by the user as
    well. *)
Definition systemBetaFmt : Scanned.t :=
  Scanned.mk (mkIdentifier "beta.fmt" None) System true "/sys/beta.fmt"
    manifest None.

(** A host whose store cannot be written: the two [add] calls fail. *)
Definition readOnlyHandle (X : Type) (c : Call X) (s : list Scanned.t)
  : Throws X * list Scanned.t :=
  match c in Call X return Throws X * list Scanned.t with
  | addExtension _ _ => (None, s)
  | addExtensionFromGallery _ _ => (None, s)
  | c' => memoryHandle c' s
  end.

Definition readOnlyHost : Host (list Scanned.t) := mkHost readOnlyHandle.

(** A host whose system scan fails. *)
Definition noSystemScanHandle (X : Type) (c : Call X) (s : list Scanned.t)
  : Throws X * list Scanned.t :=
  match c in Call X return Throws X * list Scanned.t with
  | scanSystemExtensions => (None, s)
  | c' => memoryHandle c' s
  end.

Definition noSystemScanHost : Host (list Scanned.t) :=
  mkHost noSystemScanHandle.

(** Collaborators of the scans: a scanner that knows three folders and
    rejects every other path, language packs whose file for [de] cannot
    be read and whose file for [fr] is not JSON. *)
Definition Translations := list (string * string).

Definition scanOneOrMultipleExtensions
    (input : ExtensionScannerInput Translations)
  : Throws (list (option IExtensionDescription)) :=
  if String.eqb (input_path input) "/dev/acme.lint" then Some [Some devLint]
  else if String.eqb (input_path input) "/dev/empty" then Some []
  else if String.eqb (input_path input) "/dev/git"
       then Some [Some sysGit; None]
       else None.

Definition scannerScanExtensions
    (input : ExtensionScannerInput Translations)
    (resolver : option (list IExtensionReference))
  : Throws (list (option IExtensionDescription)) :=
  if input_isBuiltin input then Some [Some sysLint; Some sysGit]
  else Some [Some userLint].

Definition mergeBuiltinExtensions
    (a b : Throws (list (option IExtensionDescription)))
  : Throws (list (option IExtensionDescription)) :=
  match a, b with
  | Some x, Some y => Some (x ++ y)
  | _, _ => None
  end.

Definition nlsConfiguration (language userDataPath : string)
  : Throws NLSConfiguration :=
  if String.eqb language "en" then Some OtherNLSConfiguration
  else Some (InternalNLSConfiguration (userDataPath ++ "/" ++ language)).

Definition readFile (path : string) : Throws string :=
  if String.eqb path "/data/fr" then Some "{not json"
  else if String.eqb path "/data/nl" then Some "{}"
  else None.

Definition parse (content : string) : Throws Translations :=
  if String.eqb content "{}" then Some [] else None.

Definition posixJoin (parts : list string) : string := String.concat "/" parts.

(** The [scanExtensions] method on these collaborators. *)
Definition scanMethod (language : string)
    (extensionDevelopmentPath : option (list string)) (roots : Roots)
  : Throws (list IExtensionDescription * list Warning) * Roots :=
  scanExtensions_method toKey (@nil (string * string)) [] "1.0.0" None None None
    "/data" "/user/extensions" "/opt/app/out" (fun p => p) posixJoin
    scannerScanExtensions scanOneOrMultipleExtensions mergeBuiltinExtensions
    nlsConfiguration readFile parse language extensionDevelopmentPath roots.

End Examples.

(* ===================================================================== *)
(** * Facts about [JsMap] *)
(* ===================================================================== *)

Section JsMapFacts.
Variable V : Type.
Implicit Types (m : JsMap.t V) (k : string) (v : V).

Lemma get_set_same k v m : JsMap.get k (JsMap.set k v m) = Some v.
Proof.
  induction m as [|[k' v'] m IH]; simpl.
  - now rewrite String.eqb_refl.
  - destruct (String.eqb k' k) eqn:E; simpl; rewrite E; auto.
Qed.

Lemma get_set_other k k' v m :
  k <> k' -> JsMap.get k' (JsMap.set k v m) = JsMap.get k' m.
Proof.
  intros Hne. induction m as [|[k0 v0] m IH]; simpl.
  - destruct (String.eqb_spec k k'); congruence.
  - destruct (String.eqb_spec k0 k); simpl.
    + subst k0. destruct (String.eqb_spec k k'); congruence.
    + destruct (String.eqb_spec k0 k'); auto.
Qed.

Lemma keys_set k v m :
  forall k', In k' (JsMap.keys (JsMap.set k v m)) <-> k' = k \/ In k' (JsMap.keys m).
Proof.
  unfold JsMap.keys.
  induction m as [|[k0 v0] m IH]; simpl; intros k'.
  - intuition.
  - destruct (String.eqb_spec k0 k); simpl.
    + subst. intuition.
    + rewrite IH. intuition.
Qed.

Lemma NoDup_keys_set k v m :
  NoDup (JsMap.keys m) -> NoDup (JsMap.keys (JsMap.set k v m)).
Proof.
  unfold JsMap.keys.
  induction m as [|[k0 v0] m IH]; simpl; intros Hnd.
  - constructor; [intros [] | constructor].
  - inversion Hnd as [|? ? Hnotin Hnd']; subst.
    destruct (String.eqb_spec k0 k); simpl.
    + constructor; assumption.
    + constructor; [| now apply IH].
      intros Hin. apply (keys_set k v m) in Hin. destruct Hin; [congruence|].
      now apply Hnotin.
Qed.

Lemma get_None_keys k m : JsMap.get k m = None <-> ~ In k (JsMap.keys m).
Proof.
  unfold JsMap.keys.
  induction m as [|[k0 v0] m IH]; simpl.
  - intuition.
  - destruct (String.eqb_spec k0 k).
    + split; [discriminate | intros H; exfalso; apply H; now left].
    + rewrite IH. intuition.
Qed.

Lemma In_set k v m :
  forall kv, In kv (JsMap.set k v m) -> kv = (k, v) \/ In kv m.
Proof.
  induction m as [|[k0 v0] m IH]; simpl; intros kv Hin.
  - intuition.
  - destruct (String.eqb_spec k0 k); simpl in Hin.
    + subst k0. destruct Hin; intuition.
    + destruct Hin as [->|Hin]; [intuition|]. apply IH in Hin. intuition.
Qed.

End JsMapFacts.

(* ===================================================================== *)
(** * The merge of [scanExtensions] *)
(* ===================================================================== *)

Section ScanExtensionsFacts.
Variable toKey : ExtensionIdentifier -> string.

Local Abbreviation keyOf := (keyOf toKey).
Local Abbreviation setExtension := (setExtension toKey).
Local Abbreviation setInstalledExtension := (setInstalledExtension toKey).
Local Abbreviation entriesFor := (entriesFor toKey).
Local Abbreviation keyed := (keyed toKey).

Lemma keyed_empty : keyed (JsMap.empty _).
Proof. split; [constructor | intros k e []]. Qed.

Lemma keyed_setExtension m ext : keyed m -> keyed (setExtension m ext).
Proof.
  intros [Hnd Hk]. destruct ext as [e|]; simpl; [|now split].
  split; [now apply NoDup_keys_set|].
  intros k e' Hin. apply In_set in Hin. destruct Hin as [Heq|Hin].
  - now inversion Heq.
  - now apply Hk.
Qed.

Lemma keyed_fold src : forall m, keyed m -> keyed (fold_left setExtension src m).
Proof.
  induction src as [|ext src IH]; simpl; intros m Hm; [assumption|].
  apply IH. now apply keyed_setExtension.
Qed.

(** The installed loop writes the same map as the other two loops; it
    only adds the warnings. *)
Lemma fold_setInstalledExtension src : forall m console,
  fst (fold_left setInstalledExtension src (m, console))
  = fold_left setExtension src m.
Proof.
  induction src as [|ext src IH]; simpl; intros m console; [reflexivity|].
  destruct ext as [e|]; simpl; apply IH.
Qed.

Lemma get_fold_absent k src : forall m,
  (forall e, In e (yielded src) -> keyOf e <> k) ->
  JsMap.get k (fold_left setExtension src m) = JsMap.get k m.
Proof.
  induction src as [|ext src IH]; simpl; intros m Habs; [reflexivity|].
  destruct ext as [e|]; simpl in *.
  - rewrite IH by (intros e' He'; apply Habs; now right).
    apply get_set_other. apply Habs. now left.
  - now apply IH.
Qed.

Lemma get_fold_present k e src : forall m,
  NoDup (map keyOf (yielded src)) ->
  In e (yielded src) -> keyOf e = k ->
  JsMap.get k (fold_left setExtension src m) = Some e.
Proof.
  induction src as [|ext src IH]; simpl; intros m Hnd Hin Hk; [contradiction|].
  destruct ext as [e0|]; simpl in *; [|now apply IH].
  inversion Hnd as [|? ? Hnotin Hnd']; subst.
  destruct Hin as [->|Hin].
  - rewrite get_fold_absent; [apply get_set_same|].
    intros e' He' Heq. apply Hnotin. rewrite <- Heq. now apply in_map.
  - now apply IH.
Qed.

(** In a keyed map the entries for a key are what [get] answers. *)
Lemma entriesFor_values k (m : Result) :
  keyed m ->
  entriesFor k (JsMap.values m)
  = match JsMap.get k m with Some e => [e] | None => [] end.
Proof.
  unfold entriesFor, JsMap.values.
  induction m as [|[k0 e0] m IH]; intros [Hnd Hk]; simpl; [reflexivity|].
  inversion Hnd as [|? ? Hnotin Hnd']; subst.
  assert (Hm : keyed m).
  { split; [assumption|]. intros k' e' Hin. apply Hk. now right. }
  assert (Hk0 : k0 = keyOf e0) by (apply Hk; now left).
  rewrite <- Hk0.
  destruct (String.eqb_spec k0 k) as [->|Hne].
  - f_equal. rewrite (IH Hm).
    rewrite (proj2 (get_None_keys k m)); [reflexivity | assumption].
  - now apply IH.
Qed.

(** What the merged result holds for a key, read from the three maps the
    loops build. *)
Lemma scanExtensions_entriesFor k builtin installed developed :
  entriesFor k (scanExtensions toKey builtin installed developed)
  = match
      JsMap.get k
        (fold_left setExtension developed
           (fold_left setExtension installed
              (fold_left setExtension builtin (JsMap.empty _))))
    with
    | Some e => [e]
    | None => []
    end.
Proof.
  unfold scanExtensions, scanExtensions_console.
  destruct (fold_left setInstalledExtension installed
              (fold_left setExtension builtin (JsMap.empty _), []))
    as [result console] eqn:E.
  simpl.
  assert (Hr : result = fold_left setExtension installed
                          (fold_left setExtension builtin (JsMap.empty _))).
  { rewrite <- (fold_setInstalledExtension installed _ []). now rewrite E. }
  subst result.
  apply entriesFor_values.
  repeat apply keyed_fold. apply keyed_empty.
Qed.

End ScanExtensionsFacts.

(** C1.  Merge precedence of [scanExtensions].  When each of the three
    scans yields at most one description per identity key, the merged
    result holds, for a key [k], exactly one entry as soon as one scan
    yields a description with that key: the developed one if there is one,
    else the installed one, else the builtin one.  (In particular for
    every key present in more than one scan.) *)
Theorem scanExtensions_precedence
    (toKey : ExtensionIdentifier -> string)
    (builtin installed developed : list (option IExtensionDescription))
    (k : string) :
  NoDup (map (keyOf toKey) (yielded builtin)) ->
  NoDup (map (keyOf toKey) (yielded installed)) ->
  NoDup (map (keyOf toKey) (yielded developed)) ->
  let merged := scanExtensions toKey builtin installed developed in
  let absent src := forall e, In e (yielded src) -> keyOf toKey e <> k in
  (forall d, In d (yielded developed) -> keyOf toKey d = k ->
     entriesFor toKey k merged = [d])
  /\ (forall i, absent developed ->
        In i (yielded installed) -> keyOf toKey i = k ->
        entriesFor toKey k merged = [i])
  /\ (forall b, absent developed -> absent installed ->
        In b (yielded builtin) -> keyOf toKey b = k ->
        entriesFor toKey k merged = [b]).
Proof.
  intros Hb Hi Hd merged absent. subst merged absent.
  rewrite scanExtensions_entriesFor.
  repeat split.
  - intros d Hin Hk. now rewrite get_fold_present with (e := d).
  - intros i Habs Hin Hk.
    rewrite get_fold_absent by assumption.
    now rewrite get_fold_present with (e := i).
  - intros b Habsd Habsi Hin Hk.
    do 2 (rewrite get_fold_absent by assumption).
    now rewrite get_fold_present with (e := b).
Qed.

(** Scenario A of the specification: the builtin and the installed scan
    both yield [acme.lint]; the installed description wins. *)
Lemma scanExtensions_precedence_witness :
  entriesFor Examples.toKey "acme.lint"
    (scanExtensions Examples.toKey
       [Some Examples.sysLint; None; Some Examples.sysGit]
       [Some Examples.userLint]
       [])
  = [Examples.userLint].
Proof.
  refine (proj1 (proj2
    (@scanExtensions_precedence Examples.toKey
       [Some Examples.sysLint; None; Some Examples.sysGit]
       [Some Examples.userLint] [] "acme.lint" _ _ _)) Examples.userLint _ _ _).
  - repeat constructor; simpl; intuition discriminate.
  - repeat constructor; simpl; intuition discriminate.
  - constructor.
  - intros e [].
  - simpl. now left.
  - reflexivity.
Defined.

Example scenario_A :
  scanExtensions_console Examples.toKey
    [Some Examples.sysLint] [Some Examples.userLint] []
  = ([Examples.userLint], [mkWarning "/sys/acme.lint" "/user/acme.lint"]).
Proof. reflexivity. Qed.

(** The three-way collision: the developed description wins, and it keeps
    the position of the first description inserted under the key. *)
Example scanExtensions_three_way :
  scanExtensions Examples.toKey
    [Some Examples.sysLint; Some Examples.sysGit]
    [Some Examples.userLint]
    [Some Examples.devLint]
  = [Examples.devLint; Examples.sysGit].
Proof. reflexivity. Qed.

(* ===================================================================== *)
(** * [getEnvironmentData]: the extension host log path *)
(* ===================================================================== *)

Lemma numberToString_inj m n : numberToString m = numberToString n -> m = n.
Proof.
  unfold numberToString. intros H.
  apply (f_equal NilEmpty.uint_of_string) in H.
  rewrite !NilEmpty.usu in H. inversion H as [H'].
  apply (f_equal N.of_uint) in H'.
  now rewrite !DecimalN.Unsigned.of_to in H'.
Qed.

Lemma append_inj_l (a x y : string) : (a ++ x = a ++ y)%string -> x = y.
Proof.
  induction a as [|c a IH]; simpl; intros H; [assumption|].
  inversion H. now apply IH.
Qed.

Lemma exthostName_inj m n : exthostName m = exthostName n -> m = n.
Proof.
  unfold exthostName. intros H.
  apply append_inj_l in H. now apply numberToString_inj.
Qed.

(** Below [2^53] the increment is an increment. *)
Lemma postIncrement_below n :
  (n < maxCounter)%N -> postIncrement n = (n + 1)%N.
Proof.
  intros H. unfold postIncrement.
  now rewrite (proj2 (N.ltb_lt n maxCounter) H).
Qed.

(** At [2^53] it leaves the counter where it is. *)
Lemma postIncrement_stuck : postIncrement maxCounter = maxCounter.
Proof. reflexivity. Qed.

Section EnvironmentDataFacts.
Variable URI : Type.
Variable URI_file : string -> URI.
Variable join : string -> string -> string.

Local Abbreviation getEnvironmentData := (getEnvironmentData URI_file join).
Local Abbreviation getEnvironmentDataTimes :=
  (getEnvironmentDataTimes URI_file join).

Lemma getEnvironmentData_counter this pool :
  snd (getEnvironmentData this pool) = postIncrement pool.
Proof. reflexivity. Qed.

(** While the counter stays within [2^53], [k] calls advance it by [k]. *)
Lemma getEnvironmentDataTimes_counter this k : forall pool,
  (pool + N.of_nat k <= maxCounter)%N ->
  snd (getEnvironmentDataTimes this k pool) = (pool + N.of_nat k)%N.
Proof.
  induction k as [|k IH]; intros pool Hle; simpl.
  - now rewrite N.add_0_r.
  - rewrite postIncrement_below by lia.
    specialize (IH (pool + 1)%N).
    destruct (getEnvironmentDataTimes this k (pool + 1)) as [dtos pool2].
    simpl in *. rewrite IH by lia. lia.
Qed.

Lemma getEnvironmentData_logPath this pool :
  dto_extensionHostLogsPath (fst (getEnvironmentData this pool))
  = URI_file (join (logsPath (environmentService this)) (exthostName pool)).
Proof. reflexivity. Qed.

End EnvironmentDataFacts.

(** C8, as the code has it.  Two calls of [getEnvironmentData] on a
    channel, the second one made after the first (with any number [k] of
    calls in between, none for two calls in a row), while the counter
    stays below [2^53]: both log paths are the logs folder joined with
    ["exthost"] followed by the decimal value of the counter the call
    read, the second value is strictly greater than the first (greater by
    one for two calls in a row), and the two paths are distinct, given
    that [URI.file] and [join] keep different folder names apart. *)
Theorem getEnvironmentData_logPaths
    (URI : Type) (URI_file : string -> URI) (join : string -> string -> string)
    (this : RemoteAgentEnvironmentChannel URI) (pool : N) (k : nat) :
  (forall dir m n,
      URI_file (join dir (exthostName m)) = URI_file (join dir (exthostName n)) ->
      exthostName m = exthostName n) ->
  (pool + N.of_nat k < maxCounter)%N ->
  let first := getEnvironmentData URI_file join this pool in
  let between := getEnvironmentDataTimes URI_file join this k (snd first) in
  let second := getEnvironmentData URI_file join this (snd between) in
  let logs := logsPath (environmentService this) in
  exists n1 n2,
    dto_extensionHostLogsPath (fst first)
      = URI_file (join logs ("exthost" ++ numberToString n1)%string)
    /\ dto_extensionHostLogsPath (fst second)
      = URI_file (join logs ("exthost" ++ numberToString n2)%string)
    /\ (n1 < n2)%N
    /\ (k = 0 -> n2 = (n1 + 1)%N)
    /\ numberToString n1 <> numberToString n2
    /\ dto_extensionHostLogsPath (fst first)
       <> dto_extensionHostLogsPath (fst second).
Proof.
  intros Hinj Hbound first between second logs.
  exists pool, (snd between).
  assert (Hfirst : snd first = (pool + 1)%N).
  { subst first. rewrite getEnvironmentData_counter.
    apply postIncrement_below. lia. }
  assert (Hb : snd between = (pool + 1 + N.of_nat k)%N).
  { subst between. rewrite Hfirst.
    apply getEnvironmentDataTimes_counter. lia. }
  repeat split.
  - lia.
  - intros ->. rewrite Hb. simpl. lia.
  - intros H. apply numberToString_inj in H. lia.
  - subst second first. rewrite !getEnvironmentData_logPath.
    intros H. apply Hinj in H. apply exthostName_inj in H. lia.
Qed.

Lemma getEnvironmentData_logPaths_witness :
  exists n1 n2,
    dto_extensionHostLogsPath
      (fst (getEnvironmentData Examples.URI_file Examples.join Examples.channel 1))
      = ("file:///home/u/.app/logs/exthost" ++ numberToString n1)%string
    /\ dto_extensionHostLogsPath
      (fst (getEnvironmentData Examples.URI_file Examples.join Examples.channel 2))
      = ("file:///home/u/.app/logs/exthost" ++ numberToString n2)%string
    /\ (n1 < n2)%N.
Proof.
  destruct (@getEnvironmentData_logPaths string Examples.URI_file Examples.join
              Examples.channel 1 0) as (n1 & n2 & H1 & H2 & Hlt & _).
  - unfold Examples.URI_file, Examples.join. intros dir m n H.
    now do 3 apply append_inj_l in H.
  - reflexivity.
  - exists n1, n2. repeat split; assumption.
Defined.

(** C8 as stated fails once the counter has reached [2^53], which it
    does after [2^53 - 1] calls: from then on [_namePool++] no longer
    changes it, and two calls in a row return the same log path. *)
Lemma getEnvironmentData_logPaths_counterexample :
  let calls := getEnvironmentDataTimes Examples.URI_file Examples.join
                 Examples.channel in
  let first := getEnvironmentData Examples.URI_file Examples.join
                 Examples.channel maxCounter in
  let second := getEnvironmentData Examples.URI_file Examples.join
                  Examples.channel (snd first) in
  snd (calls (N.to_nat (maxCounter - 1)) _namePool_initial) = maxCounter
  /\ dto_extensionHostLogsPath (fst first)
     = "file:///home/u/.app/logs/exthost9007199254740992"
  /\ dto_extensionHostLogsPath (fst second)
     = dto_extensionHostLogsPath (fst first)
  /\ snd second = maxCounter.
Proof.
  intros calls first second. split.
  - subst calls. rewrite getEnvironmentDataTimes_counter; rewrite N2Nat.id.
    + reflexivity.
    + unfold _namePool_initial, maxCounter. lia.
  - repeat split.
Qed.

Example scenario_D :
  let first := getEnvironmentData Examples.URI_file Examples.join Examples.channel
                 _namePool_initial in
  let second := getEnvironmentData Examples.URI_file Examples.join Examples.channel
                  (snd first) in
  dto_extensionHostLogsPath (fst first) = "file:///home/u/.app/logs/exthost1"
  /\ dto_extensionHostLogsPath (fst second) = "file:///home/u/.app/logs/exthost2".
Proof. split; reflexivity. Qed.

(* ===================================================================== *)
(** * The web extension management service *)
(* ===================================================================== *)

Section ServiceFacts.
Variable areSameExtensions : IExtensionIdentifier -> IExtensionIdentifier -> bool.
Variable getGalleryExtensionId : string -> string -> string.
Variable getUserConfiguredExtensionKind
  : IExtensionIdentifier -> option (list ExtensionKind).

Local Abbreviation isConfiguredToExecuteOnWeb :=
  (isConfiguredToExecuteOnWeb getUserConfiguredExtensionKind).
Local Abbreviation findExisting := (findExisting areSameExtensions).
Local Abbreviation doRun := (doRun areSameExtensions).
Local Abbreviation newInstallExtensionTask :=
  (newInstallExtensionTask getGalleryExtensionId).

Lemma ExtensionKind_eqb_eq a b : ExtensionKind_eqb a b = true <-> a = b.
Proof. destruct a, b; simpl; split; congruence. Qed.

(** [configuredExtensionKind.includes('web')] on a configured kind. *)
Lemma isConfiguredToExecuteOnWeb_true gallery :
  isConfiguredToExecuteOnWeb gallery = true
  <-> exists kinds,
        getUserConfiguredExtensionKind (Gallery.identifier gallery) = Some kinds
        /\ In web kinds.
Proof.
  unfold isConfiguredToExecuteOnWeb.
  destruct (getUserConfiguredExtensionKind (Gallery.identifier gallery))
    as [kinds|].
  - rewrite existsb_exists. split.
    + intros (x & Hin & Hx). apply ExtensionKind_eqb_eq in Hx. subst x.
      now exists kinds.
    + intros (kinds' & Heq & Hin). inversion Heq; subst kinds'.
      exists web. now split.
  - split; [discriminate | intros (kinds & Heq & _); discriminate].
Qed.

(** What a run of [doRun] that returns has computed, in terms of the
    answer of [scanUserExtensions]. *)
Lemma doRun_inv S (h : Host S) this s userExtensions s1 this' local md :
  handle h scanUserExtensions s = (Some userExtensions, s1) ->
  result (run h (doRun this) s) = Some (this', (local, md)) ->
  let existing := findExisting this userExtensions in
  let options := InstallExtensionTask.options this in
  InstallExtensionTask.options this' = options
  /\ InstallExtensionTask._operation this'
     = (if isSome existing then Update else InstallExtensionTask._operation this)
  /\ match InstallExtensionTask.source this with
     | FromUri _ => md = getMetadata (Some options) existing
     | FromGallery gallery =>
         exists now,
           md = galleryMetadata options existing gallery now
                  (getMetadata (Some options) existing)
     end.
Proof.
  intros Hscan Hrun existing options. subst existing options.
  unfold doRun in Hrun. simpl in Hrun.
  rewrite Hscan in Hrun. simpl in Hrun.
  destruct (findExisting this userExtensions) as [e|];
    destruct (InstallExtensionTask.source this) as [location|gallery] eqn:Hsrc;
    simpl in Hrun; try rewrite Hsrc in Hrun; simpl in Hrun;
    repeat match type of Hrun with
      | context [handle h ?c ?st] =>
          destruct (handle h c st) as [[?|] ?]; simpl in Hrun
      end;
    try discriminate;
    inversion Hrun; subst; simpl; repeat split; eauto.
Qed.

(** [doRun] returns as soon as the calls it makes are answered. *)
Lemma doRun_returns S (h : Host S) this s :
  (forall X (c : Call X) st, exists x st', handle h c st = (Some x, st')) ->
  exists r, result (run h (doRun this) s) = Some r.
Proof.
  intros Hans.
  unfold doRun. simpl.
  destruct (Hans _ scanUserExtensions s) as (exts & s1 & ->). simpl.
  destruct (findExisting this exts) as [e|];
    destruct (InstallExtensionTask.source this) as [location|gallery] eqn:Hsrc;
    simpl; try rewrite Hsrc; simpl;
    repeat match goal with
      | |- context [handle h ?c ?st] =>
          let x := fresh "x" in let st' := fresh "st" in
          destruct (Hans _ c st) as (x & st' & ->); simpl
      end;
    eauto.
Qed.

End ServiceFacts.

(** C9.  [updateMetadata] returns the local extension it was given, makes
    no call at all (so none that reads or writes the installed store), and
    leaves the state of its collaborators as it found it. *)
Theorem updateMetadata_noop
    (S : Type) (h : Host S) (local : Local.t) (metadata : GalleryMetadata.t)
    (s : S) :
  run h (updateMetadata local metadata) s = mkOutcome (Some local) s []
  /\ existsb eventTouchesStore (trace (run h (updateMetadata local metadata) s))
     = false.
Proof. split; reflexivity. Qed.

(** C5.  For a gallery extension that the generic check of the base class
    turns down, [canInstall] answers [true] exactly when the extension kind
    the user configured for its identifier includes ['web']; and when the
    base class finds no compatible version, [getCompatibleVersion] answers
    the extension it was asked about under that same condition, and [null]
    otherwise. *)
Theorem web_override
    (getUserConfiguredExtensionKind
       : IExtensionIdentifier -> option (list ExtensionKind))
    (S : Type) (h : Host S) (gallery : Gallery.t) :
  let configured :=
    exists kinds,
      getUserConfiguredExtensionKind (Gallery.identifier gallery) = Some kinds
      /\ In web kinds in
  (forall s s1,
      handle h (super_canInstall gallery) s = (Some false, s1) ->
      exists answer,
        result (run h (canInstall getUserConfiguredExtensionKind gallery) s)
        = Some answer
        /\ (answer = true <-> configured))
  /\ (forall sameVersion includePreRelease s s1,
        handle h (super_getCompatibleVersion gallery sameVersion includePreRelease) s
        = (Some None, s1) ->
        let answer :=
          result (run h (getCompatibleVersion getUserConfiguredExtensionKind
                           gallery sameVersion includePreRelease) s) in
        (configured -> answer = Some (Some gallery))
        /\ (~ configured -> answer = Some None)).
Proof.
  intros configured.
  assert (Hc : isConfiguredToExecuteOnWeb getUserConfiguredExtensionKind gallery
               = true <-> configured)
    by apply isConfiguredToExecuteOnWeb_true.
  split.
  - intros s s1 Hsuper.
    exists (isConfiguredToExecuteOnWeb getUserConfiguredExtensionKind gallery).
    unfold canInstall. simpl. rewrite Hsuper. simpl.
    split; [|exact Hc].
    now destruct (isConfiguredToExecuteOnWeb _ gallery).
  - intros sameVersion includePreRelease s s1 Hsuper answer. subst answer.
    unfold getCompatibleVersion. simpl. rewrite Hsuper. simpl.
    destruct (isConfiguredToExecuteOnWeb _ gallery); simpl; split; intros H.
    + reflexivity.
    + exfalso. apply H, Hc. reflexivity.
    + apply Hc in H. discriminate.
    + reflexivity.
Qed.

(** [beta.fmt] is configured for the web, [acme.native] is not; the base
    class of the example host turns both down. *)
Lemma web_override_witness :
  result (run Examples.host
            (canInstall Examples.getUserConfiguredExtensionKind
               (Examples.betaFmt false)) [])
  = Some true
  /\ result (run Examples.host
               (getCompatibleVersion Examples.getUserConfiguredExtensionKind
                  (Examples.betaFmt false) true false) [])
     = Some (Some (Examples.betaFmt false)).
Proof.
  pose proof (@web_override Examples.getUserConfiguredExtensionKind _
                Examples.host (Examples.betaFmt false)) as [Hcan Hver].
  split.
  - destruct (Hcan [] [] eq_refl) as (answer & Hrun & Hiff).
    rewrite Hrun. f_equal. apply Hiff.
    exists [workspace; web]. split; [reflexivity | simpl; auto].
  - apply (Hver true false [] [] eq_refl).
    exists [workspace; web]. split; [reflexivity | simpl; auto].
Defined.

Example canInstall_not_configured :
  result (run Examples.host
            (canInstall Examples.getUserConfiguredExtensionKind
               Examples.nativeTool) [])
  = Some false
  /\ result (run Examples.host
               (getCompatibleVersion Examples.getUserConfiguredExtensionKind
                  Examples.nativeTool false false) [])
     = Some None.
Proof. split; reflexivity. Qed.

(** C2, as the code has it.  For a run of [doRun] on a task built by the
    constructor: with no operation kind in the options, the kind of the
    task is [Install] when the scanned user extensions hold no extension
    with the identity of the task, and [Update] when they hold one; a kind
    given in the options is the kind of the task whatever the scan found;
    and when the source is a gallery extension, the [updated] flag of the
    metadata is [true] exactly when such an extension was found, hence,
    with no kind in the options, exactly when the kind is [Update]. *)
Theorem doRun_operation
    (areSameExtensions : IExtensionIdentifier -> IExtensionIdentifier -> bool)
    (getGalleryExtensionId : string -> string -> string)
    (S : Type) (h : Host S)
    (manifest : IExtensionManifest) (extension : InstallSource)
    (options : InstallOptions.t)
    (s s1 : S) (userExtensions : list Scanned.t)
    (this' : InstallExtensionTask.t) (local : Local.t) (md : Metadata.t) :
  let this := newInstallExtensionTask getGalleryExtensionId manifest extension
                options in
  handle h scanUserExtensions s = (Some userExtensions, s1) ->
  result (run h (doRun areSameExtensions this) s) = Some (this', (local, md)) ->
  let existing := findExisting areSameExtensions this userExtensions in
  (InstallOptions.operation options = None ->
     (existing = None -> operation this' = Install)
     /\ (existing <> None -> operation this' = Update))
  /\ (forall kind, InstallOptions.operation options = Some kind ->
        operation this' = kind)
  /\ (forall gallery, extension = FromGallery gallery ->
        (Metadata.updated md = Some true <-> existing <> None)
        /\ (InstallOptions.operation options = None ->
              (Metadata.updated md = Some true <-> operation this' = Update))).
Proof.
  intros this Hscan Hrun existing.
  pose proof (doRun_inv areSameExtensions h this s Hscan Hrun)
    as (Hopt & Hop & Hmd).
  fold existing in Hop, Hmd. clearbody existing. subst this.
  simpl in Hopt, Hop, Hmd.
  unfold operation. rewrite Hopt, Hop.
  split; [|split].
  - intros Hnone. rewrite Hnone. split.
    + intros ->. reflexivity.
    + intros Hex. destruct existing; simpl; congruence.
  - intros kind Hkind. now rewrite Hkind.
  - intros gallery ->. destruct Hmd as (now & ->). simpl. split.
    + destruct existing; simpl; split; congruence.
    + intros Hnone. rewrite Hnone.
      destruct existing; simpl; split; congruence.
Qed.

(** Scenario B of the specification: a first install of the pre-release of
    [beta.fmt] from the gallery. *)
Lemma doRun_operation_witness :
  exists this' local md,
    Examples.install (FromGallery (Examples.betaFmt true)) InstallOptions.empty []
    = Some (this', (local, md))
    /\ operation this' = Install
    /\ Metadata.updated md <> Some true.
Proof.
  eexists _, _, _.
  refine (let H :=
    @doRun_operation Examples.areSameExtensions Examples.getGalleryExtensionId
      _ Examples.host Examples.manifest (FromGallery (Examples.betaFmt true))
      InstallOptions.empty [] [] [] _ _ _ eq_refl eq_refl in _).
  destruct H as (Hkind & _ & Hupd).
  split; [reflexivity|]. split.
  - apply (proj1 (Hkind eq_refl)). reflexivity.
  - intros Hu. apply (proj1 (Hupd _ eq_refl)) in Hu. now apply Hu.
Defined.

Example scenario_B :
  exists this' local,
    Examples.install (FromGallery (Examples.betaFmt true)) InstallOptions.empty []
    = Some (this', (local,
         Metadata.mk (Some "U1") (Some "P1") (Some "Beta") (Some 1000)
           (Some true) None None (Some false) (Some true) None None))
    /\ operation this' = Install.
Proof. eexists _, _. split; reflexivity. Qed.

(** C2 as stated fails.  An install from a location over an extension of
    the same identity that carries no metadata is an [Update] whose
    metadata has no [updated] flag; and an install from the gallery whose
    options ask for [Install] over an installed extension has kind
    [Install] with [updated] set. *)
Lemma doRun_operation_counterexample :
  (exists this' local md,
      Examples.install (FromUri "/tmp/beta.fmt") InstallOptions.empty
        [Examples.sideloadedBetaFmt]
      = Some (this', (local, md))
      /\ operation this' = Update
      /\ Metadata.updated md <> Some true
      /\ Local.updated local = false)
  /\ (exists this' local md,
        Examples.install (FromGallery (Examples.betaFmt false))
          Examples.optionsForceInstall [Examples.installedBetaFmt]
        = Some (this', (local, md))
        /\ operation this' <> Update
        /\ Metadata.updated md = Some true).
Proof.
  split; eexists _, _, _;
    (split; [reflexivity|]); simpl; repeat split; discriminate.
Qed.

(** C3, as the code has it.  An install of a gallery extension over an
    installed extension whose metadata has [preRelease = true], with
    [installPreReleaseVersion = false] in the options: when the gallery
    version is not itself a pre-release, the metadata gets
    [preRelease = false]; and with no operation kind in the options the
    kind of the task is [Update]. *)
Theorem doRun_preRelease_opt_out
    (areSameExtensions : IExtensionIdentifier -> IExtensionIdentifier -> bool)
    (getGalleryExtensionId : string -> string -> string)
    (S : Type) (h : Host S)
    (manifest : IExtensionManifest) (gallery : Gallery.t)
    (options : InstallOptions.t)
    (s s1 : S) (userExtensions : list Scanned.t)
    (existing : Scanned.t) (existingMetadata : Metadata.t)
    (this' : InstallExtensionTask.t) (local : Local.t) (md : Metadata.t) :
  let this := newInstallExtensionTask getGalleryExtensionId manifest
                (FromGallery gallery) options in
  handle h scanUserExtensions s = (Some userExtensions, s1) ->
  result (run h (doRun areSameExtensions this) s) = Some (this', (local, md)) ->
  findExisting areSameExtensions this userExtensions = Some existing ->
  Scanned.metadata existing = Some existingMetadata ->
  Metadata.preRelease existingMetadata = Some true ->
  InstallOptions.installPreReleaseVersion options = Some false ->
  Gallery.isPreReleaseVersion (Gallery.properties gallery) = false ->
  Metadata.preRelease md = Some false
  /\ (InstallOptions.operation options = None -> operation this' = Update).
Proof.
  intros this Hscan Hrun Hfind Hmeta Hpre Hopt Hver.
  pose proof (doRun_inv areSameExtensions h this s Hscan Hrun)
    as (Hopts & Hop & Hmd).
  rewrite Hfind in Hop, Hmd. subst this. simpl in Hopts, Hop, Hmd.
  destruct Hmd as (now & ->). simpl. rewrite Hver, Hopt. simpl.
  split; [reflexivity|].
  intros Hnone. unfold operation. now rewrite Hopts, Hnone.
Qed.

(** Scenario C of the specification. *)
Lemma doRun_preRelease_opt_out_witness :
  exists this' local md,
    Examples.install (FromGallery (Examples.betaFmt false))
      Examples.optionsNoPreRelease [Examples.installedBetaFmt]
    = Some (this', (local, md))
    /\ Metadata.preRelease md = Some false
    /\ operation this' = Update.
Proof.
  eexists _, _, _.
  refine (let H :=
    @doRun_preRelease_opt_out Examples.areSameExtensions
      Examples.getGalleryExtensionId _ Examples.host Examples.manifest
      (Examples.betaFmt false) Examples.optionsNoPreRelease
      [Examples.installedBetaFmt] [Examples.installedBetaFmt]
      [Examples.installedBetaFmt] Examples.installedBetaFmt _ _ _ _
      eq_refl eq_refl eq_refl eq_refl eq_refl eq_refl eq_refl in _).
  destruct H as (Hpre & Hkind).
  split; [reflexivity|]. split; [exact Hpre | exact (Hkind eq_refl)].
Defined.

(** C3 as stated fails.  With [installPreReleaseVersion = false] over an
    extension with [preRelease = true], installing a gallery version that
    is itself a pre-release leaves [preRelease = true]; and options that
    also ask for [Install] give the task the kind [Install]. *)
Lemma doRun_preRelease_opt_out_counterexample :
  (exists this' local md,
      Examples.install (FromGallery (Examples.betaFmt true))
        Examples.optionsNoPreRelease [Examples.installedBetaFmt]
      = Some (this', (local, md))
      /\ Metadata.preRelease md = Some true)
  /\ (exists this' local md,
        Examples.install (FromGallery (Examples.betaFmt false))
          Examples.optionsNoPreReleaseForceInstall [Examples.installedBetaFmt]
        = Some (this', (local, md))
        /\ operation this' = Install).
Proof.
  split; eexists _, _, _; split; reflexivity.
Qed.

(** C4.  An install, from a location or from the gallery, over an
    installed extension whose metadata has [preRelease = true], with no
    boolean [installPreReleaseVersion] in the options: the metadata of the
    install has [preRelease = true]. *)
Theorem doRun_preRelease_sticky
    (areSameExtensions : IExtensionIdentifier -> IExtensionIdentifier -> bool)
    (getGalleryExtensionId : string -> string -> string)
    (S : Type) (h : Host S)
    (manifest : IExtensionManifest) (extension : InstallSource)
    (options : InstallOptions.t)
    (s s1 : S) (userExtensions : list Scanned.t)
    (existing : Scanned.t) (existingMetadata : Metadata.t)
    (this' : InstallExtensionTask.t) (local : Local.t) (md : Metadata.t) :
  let this := newInstallExtensionTask getGalleryExtensionId manifest extension
                options in
  handle h scanUserExtensions s = (Some userExtensions, s1) ->
  result (run h (doRun areSameExtensions this) s) = Some (this', (local, md)) ->
  findExisting areSameExtensions this userExtensions = Some existing ->
  Scanned.metadata existing = Some existingMetadata ->
  Metadata.preRelease existingMetadata = Some true ->
  Js.isBoolean (InstallOptions.installPreReleaseVersion options) = false ->
  Metadata.preRelease md = Some true.
Proof.
  intros this Hscan Hrun Hfind Hmeta Hpre Hopt.
  pose proof (doRun_inv areSameExtensions h this s Hscan Hrun)
    as (_ & _ & Hmd).
  rewrite Hfind in Hmd. subst this. simpl in Hmd.
  destruct extension as [location|gallery].
  - subst md. simpl. now rewrite Hmeta.
  - destruct Hmd as (now & ->). simpl. rewrite Hopt, Hmeta, Hpre.
    now destruct (Gallery.isPreReleaseVersion (Gallery.properties gallery)).
Qed.

Lemma doRun_preRelease_sticky_witness :
  exists this' local md,
    Examples.install (FromGallery (Examples.betaFmt false)) InstallOptions.empty
      [Examples.installedBetaFmt]
    = Some (this', (local, md))
    /\ Metadata.preRelease md = Some true.
Proof.
  eexists _, _, _.
  refine (let H :=
    @doRun_preRelease_sticky Examples.areSameExtensions
      Examples.getGalleryExtensionId _ Examples.host Examples.manifest
      (FromGallery (Examples.betaFmt false)) InstallOptions.empty
      [Examples.installedBetaFmt] [Examples.installedBetaFmt]
      [Examples.installedBetaFmt] Examples.installedBetaFmt _ _ _ _
      eq_refl eq_refl eq_refl eq_refl eq_refl eq_refl in _).
  split; [reflexivity | exact H].
Defined.

(** C10.  The machine-scoped flag under install.  [getMetadata] keeps
    [isMachineScoped = true] of the existing metadata whatever the options
    are, sets the flag when the options carry [isMachineScoped = true], and
    with options that carry [false] or nothing (or with no options) hands
    on the flag of the existing metadata as it is; and the metadata a run
    of [doRun] returns has the flag [getMetadata] computed. *)
Theorem isMachineScoped_monotone
    (areSameExtensions : IExtensionIdentifier -> IExtensionIdentifier -> bool) :
  (forall options existing existingMetadata,
      Scanned.metadata existing = Some existingMetadata ->
      Metadata.isMachineScoped existingMetadata = Some true ->
      Metadata.isMachineScoped (getMetadata options (Some existing)) = Some true)
  /\ (forall options existing,
        InstallOptions.isMachineScoped options = Some true ->
        Metadata.isMachineScoped (getMetadata (Some options) existing)
        = Some true)
  /\ (forall options existing existingMetadata,
        Scanned.metadata existing = Some existingMetadata ->
        (forall o, options = Some o ->
                   InstallOptions.isMachineScoped o <> Some true) ->
        Metadata.isMachineScoped (getMetadata options (Some existing))
        = Metadata.isMachineScoped existingMetadata)
  /\ (forall S (h : Host S) this s s1 userExtensions this' local md,
        handle h scanUserExtensions s = (Some userExtensions, s1) ->
        result (run h (doRun areSameExtensions this) s)
        = Some (this', (local, md)) ->
        Metadata.isMachineScoped md
        = Metadata.isMachineScoped
            (getMetadata (Some (InstallExtensionTask.options this))
               (findExisting areSameExtensions this userExtensions))).
Proof.
  repeat split.
  - intros options existing m Hmeta Hflag. simpl. rewrite Hmeta, Hflag.
    destruct options as [o|]; [|reflexivity].
    now destruct (InstallOptions.isMachineScoped o) as [[|]|].
  - intros options existing Hflag. simpl. now rewrite Hflag.
  - intros options existing m Hmeta Hopt. simpl. rewrite Hmeta.
    destruct options as [o|]; [|reflexivity].
    specialize (Hopt o eq_refl).
    destruct (InstallOptions.isMachineScoped o) as [[|]|];
      [exfalso; now apply Hopt | reflexivity | reflexivity].
  - intros S h this s s1 userExtensions this' local md Hscan Hrun.
    pose proof (doRun_inv areSameExtensions h this s Hscan Hrun)
      as (_ & _ & Hmd).
    destruct (InstallExtensionTask.source this).
    + now subst md.
    + destruct Hmd as (now & ->). reflexivity.
Qed.

(** An install with [isMachineScoped = false] in its options over a
    machine-scoped extension. *)
Lemma isMachineScoped_monotone_witness :
  Metadata.isMachineScoped
    (getMetadata (Some Examples.optionsNotMachineScoped)
       (Some Examples.machineScopedBetaFmt))
  = Some true
  /\ exists this' local md,
       Examples.install (FromUri "/tmp/beta.fmt") Examples.optionsNotMachineScoped
         [Examples.machineScopedBetaFmt]
       = Some (this', (local, md))
       /\ Metadata.isMachineScoped md = Some true.
Proof.
  pose proof (@isMachineScoped_monotone Examples.areSameExtensions)
    as (Hkeep & _ & _ & Hrun).
  split.
  - exact (Hkeep (Some Examples.optionsNotMachineScoped)
             Examples.machineScopedBetaFmt _ eq_refl eq_refl).
  - eexists _, _, _. split; [reflexivity|].
    rewrite (Hrun _ Examples.host
               (newInstallExtensionTask Examples.getGalleryExtensionId
                  Examples.manifest (FromUri "/tmp/beta.fmt")
                  Examples.optionsNotMachineScoped)
               [Examples.machineScopedBetaFmt]
               [Examples.machineScopedBetaFmt] [Examples.machineScopedBetaFmt]
               _ _ _ eq_refl eq_refl).
    exact (Hkeep (Some Examples.optionsNotMachineScoped)
             Examples.machineScopedBetaFmt _ eq_refl eq_refl).
Defined.

(* ===================================================================== *)
(** * The [when] clause rewriter: strings *)
(* ===================================================================== *)

Lemma prefix_append p : forall s,
  String.prefix p s = true <-> exists b, s = (p ++ b)%string.
Proof.
  induction p as [|c p IH]; intros s.
  - split; [intros _; now exists s | intros _; now destruct s].
  - destruct s as [|c' s]; simpl.
    + split; [discriminate | intros (b & Hb); discriminate].
    + destruct (Ascii.ascii_dec c c') as [->|Hne].
      * rewrite IH. split; intros (b & Hb); exists b; congruence.
      * split; [discriminate | intros (b & Hb); congruence].
Qed.

Lemma contains_unfold p s :
  contains p s
  = if String.prefix p s then true
    else match s with
         | EmptyString => false
         | String _ s' => contains p s'
         end.
Proof. destruct s; reflexivity. Qed.

(** [contains p s] is the substring test. *)
Lemma contains_substring p : forall s,
  contains p s = true <-> exists a b, s = (a ++ p ++ b)%string.
Proof.
  induction s as [|c s IH]; rewrite contains_unfold.
  - destruct (String.prefix p "") eqn:E.
    + split; [intros _ | reflexivity].
      apply prefix_append in E. destruct E as (b & Hb). now exists "", b.
    + split; [discriminate|]. intros (a & b & Hab).
      destruct a; simpl in Hab; [|discriminate].
      assert (String.prefix p "" = true) by (apply prefix_append; now exists b).
      congruence.
  - destruct (String.prefix p (String c s)) eqn:E.
    + split; [intros _ | reflexivity].
      apply prefix_append in E. destruct E as (b & Hb). now exists "", b.
    + rewrite IH. split.
      * intros (a & b & ->). now exists (String c a), b.
      * intros (a & b & Hab). destruct a as [|c' a]; simpl in Hab.
        -- assert (String.prefix p (String c s) = true)
             by (apply prefix_append; now exists b).
           congruence.
        -- inversion Hab. now exists a, b.
Qed.

Lemma replaceFile_unfold c t :
  replaceFile (String c t)
  = if startsFile (String c t)
    then match t with
         | String _ (String _ (String _ rest)) =>
             ("vscode-remote" ++ replaceFile rest)%string
         | _ => EmptyString
         end
    else String c (replaceFile t).
Proof.
  destruct t as [|c2 [|c3 [|c4 rest]]]; reflexivity.
Qed.

Lemma startsFile_head c t : startsFile (String c t) = true -> c = "f"%char.
Proof.
  destruct t as [|c2 [|c3 [|c4 rest]]]; simpl; try discriminate.
  unfold isFile. intros H. repeat (apply andb_prop in H; destruct H as [H ?]).
  now apply Ascii.eqb_eq.
Qed.

Lemma startsFile_inv s :
  startsFile s = true -> exists rest, s = ("file" ++ rest)%string.
Proof.
  destruct s as [|c1 [|c2 [|c3 [|c4 rest]]]]; simpl; try discriminate.
  unfold isFile. intros H.
  repeat (apply andb_prop in H; destruct H as [H ?]).
  repeat match goal with
    | E : Ascii.eqb _ _ = true |- _ => apply Ascii.eqb_eq in E; subst
    end.
  now exists rest.
Qed.

(** A character other than [f] is copied. *)
Lemma replaceFile_cons c t :
  c <> "f"%char -> replaceFile (String c t) = String c (replaceFile t).
Proof.
  intros Hne. rewrite replaceFile_unfold.
  destruct (startsFile (String c t)) eqn:E; [|reflexivity].
  apply startsFile_head in E. contradiction.
Qed.

(** The replacement text holds no [f]: [replaceFile] steps over it. *)
Lemma replaceFile_remote s :
  replaceFile ("vscode-remote" ++ s) = ("vscode-remote" ++ replaceFile s)%string.
Proof.
  simpl String.append.
  repeat (rewrite replaceFile_cons by discriminate; f_equal).
Qed.

(** The first character of the output, unless it is the [v] of a
    replacement, is the first character of the input. *)
Lemma replaceFile_head c u t :
  replaceFile t = String c u -> c <> "v"%char ->
  exists t', t = String c t' /\ u = replaceFile t'.
Proof.
  destruct t as [|c1 t1]; [discriminate|].
  rewrite replaceFile_unfold.
  destruct (startsFile (String c1 t1)) eqn:E.
  - apply startsFile_inv in E. destruct E as (rest & Hrest).
    simpl in Hrest. inversion Hrest; subst. simpl.
    intros H Hne. inversion H. congruence.
  - intros H _. inversion H; subst. now exists t1.
Qed.

(** The output begins with [file] only where the input does. *)
Lemma startsFile_replaceFile c t :
  startsFile (String c (replaceFile t)) = true -> startsFile (String c t) = true.
Proof.
  intros H. apply startsFile_inv in H. destruct H as (rest & Hrest).
  simpl in Hrest. inversion Hrest as [[Hc Ht]]. clear Hrest.
  apply replaceFile_head in Ht; [|discriminate].
  destruct Ht as (t1 & -> & Ht1). symmetry in Ht1.
  apply replaceFile_head in Ht1; [|discriminate].
  destruct Ht1 as (t2 & -> & Ht2). symmetry in Ht2.
  apply replaceFile_head in Ht2; [|discriminate].
  destruct Ht2 as (t3 & -> & _).
  reflexivity.
Qed.

(** [value.replace(/file/g, 'vscode-remote')] leaves nothing to replace. *)
Lemma replaceFile_idempotent s : replaceFile (replaceFile s) = replaceFile s.
Proof.
  remember (String.length s) as n eqn:Hn.
  revert s Hn. induction n as [n IH] using lt_wf_ind. intros s Hn.
  destruct s as [|c t]; [reflexivity|].
  rewrite replaceFile_unfold.
  destruct (startsFile (String c t)) eqn:E.
  - apply startsFile_inv in E. destruct E as (rest & Hrest).
    simpl in Hrest. inversion Hrest; subst.
    rewrite replaceFile_remote. f_equal.
    apply (IH (String.length rest)); [simpl; lia | reflexivity].
  - rewrite replaceFile_unfold.
    destruct (startsFile (String c (replaceFile t))) eqn:E'.
    + apply startsFile_replaceFile in E'. congruence.
    + f_equal. apply (IH (String.length t)); [subst n; simpl; lia | reflexivity].
Qed.

Example replaceFile_example :
  replaceFile "^(file|untitled)$" = "^(vscode-remote|untitled)$"
  /\ replaceFile "profile" = "provscode-remote"
  /\ replaceFile "fifilele" = "fivscode-remotele".
Proof. repeat split; reflexivity. Qed.

(* ===================================================================== *)
(** * The [when] clause rewriter: expressions *)
(* ===================================================================== *)

Section ExpressionInduction.
Variable P : ContextKeyExpression -> Prop.
Hypothesis HDefined : forall key, P (ContextKeyDefinedExpr key).
Hypothesis HNot : forall key, P (ContextKeyNotExpr key).
Hypothesis HEquals : forall key value, P (ContextKeyEqualsExpr key value).
Hypothesis HNotEquals : forall key value, P (ContextKeyNotEqualsExpr key value).
Hypothesis HRegex : forall key regexp, P (ContextKeyRegexExpr key regexp).
Hypothesis HIn : forall key valueKey, P (ContextKeyInExpr key valueKey).
Hypothesis HAnd : forall es, Forall P es -> P (ContextKeyAndExpr es).
Hypothesis HOr : forall es, Forall P es -> P (ContextKeyOrExpr es).

Lemma expression_ind : forall e, P e.
Proof.
  exact (fix self (e : ContextKeyExpression) : P e :=
    match e with
    | ContextKeyDefinedExpr key => HDefined key
    | ContextKeyNotExpr key => HNot key
    | ContextKeyEqualsExpr key value => HEquals key value
    | ContextKeyNotEqualsExpr key value => HNotEquals key value
    | ContextKeyRegexExpr key regexp => HRegex key regexp
    | ContextKeyInExpr key valueKey => HIn key valueKey
    | ContextKeyAndExpr es =>
        HAnd ((fix all (l : list ContextKeyExpression) : Forall P l :=
                 match l with
                 | [] => Forall_nil P
                 | a :: l' => Forall_cons a (self a) (all l')
                 end) es)
    | ContextKeyOrExpr es =>
        HOr ((fix all (l : list ContextKeyExpression) : Forall P l :=
                match l with
                | [] => Forall_nil P
                | a :: l' => Forall_cons a (self a) (all l')
                end) es)
    end).
Qed.
End ExpressionInduction.

Lemma exprMap_And m es :
  exprMap m (ContextKeyAndExpr es)
  = option_map ContextKeyAndExpr (mapThrows (exprMap m) es).
Proof.
  simpl. f_equal. induction es as [|a es IH]; simpl; [reflexivity|].
  now rewrite IH.
Qed.

Lemma exprMap_Or m es :
  exprMap m (ContextKeyOrExpr es)
  = option_map ContextKeyOrExpr (mapThrows (exprMap m) es).
Proof.
  simpl. f_equal. induction es as [|a es IH]; simpl; [reflexivity|].
  now rewrite IH.
Qed.

(** A list rewritten element by element stays as it is under a second
    pass, when every rewritten element does. *)
Lemma mapThrows_fixed A (f : A -> Throws A) (l : list A) : forall l',
  (forall a b, In a l -> f a = Some b -> f b = Some b) ->
  mapThrows f l = Some l' -> mapThrows f l' = Some l'.
Proof.
  induction l as [|a l IH]; simpl; intros l' Hfix Hmap.
  - inversion Hmap. reflexivity.
  - destruct (f a) as [b|] eqn:Hfa; [|discriminate].
    destruct (mapThrows f l) as [bs|] eqn:Hl; [|discriminate].
    inversion Hmap; subst l'. simpl.
    rewrite (Hfix a b (or_introl eq_refl) Hfa).
    rewrite (IH bs); [reflexivity | | reflexivity].
    intros a' b' Hin. apply Hfix. now right.
Qed.

Lemma mapThrows_returns A B (f : A -> Throws B) (l : list A) :
  (forall a, In a l -> exists b, f a = Some b) ->
  exists l', mapThrows f l = Some l'.
Proof.
  induction l as [|a l IH]; simpl; intros Hf; [now exists []|].
  destruct (Hf a (or_introl eq_refl)) as (b & ->).
  destruct IH as (bs & ->); [intros a' Hin; apply Hf; now right|].
  now exists (b :: bs).
Qed.

Section MapperFacts.
Variable regexpAccepts : string -> string -> bool.

Local Abbreviation mapper := (_exprKeyMapper regexpAccepts).

(** The flags string [_mapResourceRegExpValue] builds reads back as the
    three flags it was built from. *)
Lemma flags_read_back (g i m : bool) :
  let flags := ((("" ++ (if g then "g" else ""))
                   ++ (if i then "i" else ""))
                  ++ (if m then "m" else ""))%string in
  contains "g" flags = g /\ contains "i" flags = i /\ contains "m" flags = m.
Proof. destruct g, i, m; repeat split; reflexivity. Qed.

Lemma _mapResourceRegExpValue_fixed r r' :
  _mapResourceRegExpValue regexpAccepts r = Some r' ->
  _mapResourceRegExpValue regexpAccepts r' = Some r'.
Proof.
  destruct r as [src g i m other].
  unfold _mapResourceRegExpValue, newRegExp, _mapResourceSchemeValue.
  destruct g, i, m; simpl;
    destruct (regexpAccepts (replaceFile src) _) eqn:Hacc; try discriminate;
    intros H; inversion H; subst r'; simpl;
    rewrite replaceFile_idempotent, Hacc; reflexivity.
Qed.

(** The mapper leaves a rewritten expression as it is. *)
Lemma exprMap_fixed e : forall e',
  exprMap mapper e = Some e' -> exprMap mapper e' = Some e'.
Proof.
  induction e as [key|key|key v|key v|key regexp|key valueKey|es IHes|es IHes]
    using expression_ind; intros e'.
  - simpl. intros H; inversion H; reflexivity.
  - simpl. intros H; inversion H; reflexivity.
  - simpl. destruct v as [s|b].
    + destruct (String.eqb key "resourceScheme") eqn:Hk;
        intros H; inversion H; simpl; rewrite Hk; [|reflexivity].
      unfold _mapResourceSchemeValue. now rewrite replaceFile_idempotent.
    + intros H; inversion H; reflexivity.
  - simpl. destruct v as [s|b].
    + destruct (String.eqb key "resourceScheme") eqn:Hk;
        intros H; inversion H; simpl; rewrite Hk; [|reflexivity].
      unfold _mapResourceSchemeValue. now rewrite replaceFile_idempotent.
    + intros H; inversion H; reflexivity.
  - simpl. destruct regexp as [r|].
    + destruct (String.eqb key "resourceScheme") eqn:Hk.
      * destruct (_mapResourceRegExpValue regexpAccepts r) as [r'|] eqn:Hr;
          [|discriminate].
        intros H; inversion H; simpl. rewrite Hk.
        now rewrite (_mapResourceRegExpValue_fixed _ Hr).
      * intros H; inversion H; simpl. now rewrite Hk.
    + intros H; inversion H; reflexivity.
  - simpl. intros H; inversion H; reflexivity.
  - rewrite exprMap_And.
    destruct (mapThrows (exprMap mapper) es) as [es'|] eqn:Hes; [|discriminate].
    intros H; inversion H; subst e'. rewrite exprMap_And.
    rewrite (@mapThrows_fixed _ _ es es'); [reflexivity | | assumption].
    intros a b Hin. rewrite Forall_forall in IHes. now apply IHes.
  - rewrite exprMap_Or.
    destruct (mapThrows (exprMap mapper) es) as [es'|] eqn:Hes; [|discriminate].
    intros H; inversion H; subst e'. rewrite exprMap_Or.
    rewrite (@mapThrows_fixed _ _ es es'); [reflexivity | | assumption].
    intros a b Hin. rewrite Forall_forall in IHes. now apply IHes.
Qed.

End MapperFacts.

(* ===================================================================== *)
(** * The [when] clause rewriter: descriptions *)
(* ===================================================================== *)

Section MassageFacts.
Variable regexpAccepts : string -> string -> bool.
Variable deserialize : string -> option ContextKeyExpression.
Variable serialize : ContextKeyExpression -> string.

Local Abbreviation mapper := (_exprKeyMapper regexpAccepts).
Local Abbreviation reparses := (reparses regexpAccepts deserialize serialize).
Local Abbreviation _massageWhenUser :=
  (_massageWhenUser regexpAccepts deserialize serialize).
Local Abbreviation _massageWhenUserArr :=
  (_massageWhenUserArr regexpAccepts deserialize serialize).
Local Abbreviation _massageLocWhenUser :=
  (_massageLocWhenUser regexpAccepts deserialize serialize).
Local Abbreviation massageContributes :=
  (massageContributes regexpAccepts deserialize serialize).
Local Abbreviation massageExtension :=
  (massageExtension regexpAccepts deserialize serialize).
Local Abbreviation massageWhenConditions :=
  (massageWhenConditions regexpAccepts deserialize serialize).

(** The two early returns of [_massageWhenUser], and the entries without
    a [when]: the entry is handed back as it is. *)
Lemma _massageWhenUser_skips el :
  match when el with
  | None => True
  | Some w =>
      w = "" \/ contains "resourceScheme" w = false \/ deserialize w = None
  end ->
  _massageWhenUser (Some el) = Some (Some el).
Proof.
  unfold _massageWhenUser.
  destruct (when el) as [w|]; [|reflexivity].
  intros [-> | [Hc | Hd]].
  - reflexivity.
  - rewrite Hc. now rewrite orb_true_r.
  - rewrite Hd. now destruct (_ || _).
Qed.

Lemma _massageWhenUser_fixed element element' :
  (forall w, In w (whensOfUser element) -> reparses w) ->
  _massageWhenUser element = Some element' ->
  _massageWhenUser element' = Some element'.
Proof.
  intros Hre. destruct element as [el|]; [|intros H; now inversion H].
  unfold _massageWhenUser. simpl in Hre.
  destruct (when el) as [w|] eqn:Hw.
  2:{ intros H; inversion H; subst. now rewrite Hw. }
  destruct (String.eqb w "" || negb (contains "resourceScheme" w)) eqn:Hguard.
  { intros H; inversion H; subst. now rewrite Hw, Hguard. }
  destruct (deserialize w) as [expr|] eqn:Hd.
  2:{ intros H; inversion H; subst. now rewrite Hw, Hguard, Hd. }
  destruct (exprMap mapper expr) as [massaged|] eqn:Hm; [|discriminate].
  intros H; inversion H; subst; clear H. simpl.
  destruct (String.eqb (serialize massaged) ""
            || negb (contains "resourceScheme" (serialize massaged)));
    [reflexivity|].
  rewrite (Hre w (or_introl eq_refl) expr massaged Hd Hm).
  now rewrite (exprMap_fixed _ _ Hm).
Qed.

Lemma _massageWhenUserArr_fixed elements elements' :
  (forall w, In w (whensOfUsers elements) -> reparses w) ->
  _massageWhenUserArr elements = Some elements' ->
  _massageWhenUserArr elements' = Some elements'.
Proof.
  intros Hre. destruct elements as [element|l]; simpl.
  - destruct (_massageWhenUser element) as [element'|] eqn:He; [|discriminate].
    intros H; inversion H; subst; simpl.
    now rewrite (_massageWhenUser_fixed _ Hre He).
  - destruct (mapThrows _massageWhenUser l) as [l'|] eqn:Hl; [|discriminate].
    intros H; inversion H; subst; simpl.
    rewrite (@mapThrows_fixed _ _ l l'); [reflexivity | | assumption].
    intros a b Hin. apply _massageWhenUser_fixed.
    intros w Hw. apply Hre. simpl. apply in_flat_map. now exists a.
Qed.

Lemma _massageLocWhenUser_fixed target target' :
  (forall w, In w (whensOfLoc target) -> reparses w) ->
  _massageLocWhenUser target = Some target' ->
  _massageLocWhenUser target' = Some target'.
Proof.
  intros Hre. apply mapThrows_fixed.
  intros [loc users] [loc' users'] Hin. simpl.
  destruct (_massageWhenUserArr users) as [users1|] eqn:Hu; [|discriminate].
  intros H; inversion H; subst; simpl.
  rewrite (@_massageWhenUserArr_fixed users users'); [reflexivity | | assumption].
  intros w Hw. apply Hre. unfold whensOfLoc. apply in_flat_map.
  now exists (loc', users).
Qed.

Lemma whenPresent_fixed A (f : A -> Throws A) (x x' : option A) :
  (forall a b, x = Some a -> f a = Some b -> f b = Some b) ->
  whenPresent f x = Some x' -> whenPresent f x' = Some x'.
Proof.
  intros Hf. destruct x as [a|]; simpl.
  - destruct (f a) as [b|] eqn:Hfa; [|discriminate].
    intros H; inversion H; subst; simpl. now rewrite (Hf a b eq_refl Hfa).
  - intros H; inversion H; reflexivity.
Qed.

Lemma massageContributes_fixed c c' :
  (forall w, In w (whensOfContributes c) -> reparses w) ->
  massageContributes c = Some c' -> massageContributes c' = Some c'.
Proof.
  intros Hre. unfold massageContributes.
  destruct (whenPresent _massageLocWhenUser (menus c)) as [m'|] eqn:Hm;
    [|discriminate].
  destruct (whenPresent _massageWhenUserArr (keybindings c)) as [k'|] eqn:Hk;
    [|discriminate].
  destruct (whenPresent _massageLocWhenUser (views c)) as [v'|] eqn:Hv;
    [|discriminate].
  intros H; inversion H; subst; simpl.
  rewrite (whenPresent_fixed _ (x := menus c) (x' := m')); [| | assumption].
  rewrite (whenPresent_fixed _ (x := keybindings c) (x' := k')); [| | assumption].
  rewrite (whenPresent_fixed _ (x := views c) (x' := v')); [| | assumption].
  - reflexivity.
  - intros a b Ha. apply _massageLocWhenUser_fixed.
    intros w Hw. apply Hre. unfold whensOfContributes.
    rewrite Ha. simpl. apply in_or_app. right. apply in_or_app. now right.
  - intros a b Ha. apply _massageWhenUserArr_fixed.
    intros w Hw. apply Hre. unfold whensOfContributes.
    rewrite Ha. simpl. apply in_or_app. right. apply in_or_app. now left.
  - intros a b Ha. apply _massageLocWhenUser_fixed.
    intros w Hw. apply Hre. unfold whensOfContributes.
    rewrite Ha. simpl. apply in_or_app. now left.
Qed.

Lemma massageExtension_fixed extension extension' :
  (forall w, In w (whensOfOpt whensOfContributes (contributes extension)) ->
             reparses w) ->
  massageExtension extension = Some extension' ->
  massageExtension extension' = Some extension'.
Proof.
  intros Hre. unfold massageExtension.
  destruct (whenPresent massageContributes (contributes extension))
    as [c'|] eqn:Hc; [|discriminate].
  intros H; inversion H; subst; simpl.
  rewrite (whenPresent_fixed _ (x := contributes extension) (x' := c'));
    [reflexivity | | assumption].
  intros a b Ha. apply massageContributes_fixed.
  intros w Hw. apply Hre. rewrite Ha. exact Hw.
Qed.

Lemma massageWhenConditions_fixed extensions once :
  (forall w, In w (whensOf extensions) -> reparses w) ->
  massageWhenConditions extensions = Some once ->
  massageWhenConditions once = Some once.
Proof.
  intros Hre. apply mapThrows_fixed.
  intros extension extension' Hin. apply massageExtension_fixed.
  intros w Hw. apply Hre. unfold whensOf. apply in_flat_map.
  now exists extension.
Qed.

End MassageFacts.




(** With [deserialize] and [serialize] that round trip on every
    expression, the rewriting is idempotent on every list. *)
Corollary massageWhenConditions_idempotent_round_trip
    (regexpAccepts : string -> string -> bool)
    (deserialize : string -> option ContextKeyExpression)
    (serialize : ContextKeyExpression -> string)
    (extensions once : list IExtensionDescription) :
  (forall e, deserialize (serialize e) = Some e) ->
  massageWhenConditions regexpAccepts deserialize serialize extensions
  = Some once ->
  massageWhenConditions regexpAccepts deserialize serialize once = Some once.
Proof.
  intros Hround. apply massageWhenConditions_fixed.
  intros w _ expr massaged _ _. apply Hround.
Qed.

(** C7.  An entry whose [when] clause does not contain [resourceScheme],
    or whose clause [deserialize] cannot read, comes back from
    [_massageWhenUser] exactly as it was, and the call does not throw. *)
Theorem massageWhenUser_untouched
    (regexpAccepts : string -> string -> bool)
    (deserialize : string -> option ContextKeyExpression)
    (serialize : ContextKeyExpression -> string)
    (element : WhenUser) (w : string) :
  when element = Some w ->
  (~ exists a b, w = (a ++ "resourceScheme" ++ b)%string)
  \/ deserialize w = None ->
  _massageWhenUser regexpAccepts deserialize serialize (Some element)
  = Some (Some element).
Proof.
  intros Hw Hskip. apply _massageWhenUser_skips. rewrite Hw.
  destruct Hskip as [Hno | Hd]; [|now right; right].
  right; left.
  destruct (contains "resourceScheme" w) eqn:E; [|reflexivity].
  apply contains_substring in E. contradiction.
Qed.

Lemma massageWhenUser_untouched_witness :
  _massageWhenUser Examples.regexpAccepts Examples.deserialize Examples.serialize
    (Examples.entry "resourceScheme == file && (a || b)")
  = Some (Examples.entry "resourceScheme == file && (a || b)")
  /\ _massageWhenUser Examples.regexpAccepts Examples.deserialize
       Examples.serialize (Examples.entry "editorFocus")
     = Some (Examples.entry "editorFocus").
Proof.
  split.
  - apply (@massageWhenUser_untouched Examples.regexpAccepts
             Examples.deserialize Examples.serialize
             (Examples.entryOf "resourceScheme == file && (a || b)")
             "resourceScheme == file && (a || b)" eq_refl).
    right. reflexivity.
  - apply (@massageWhenUser_untouched Examples.regexpAccepts
             Examples.deserialize Examples.serialize
             (Examples.entryOf "editorFocus") "editorFocus" eq_refl).
    left. intros Hsub. apply contains_substring in Hsub. discriminate.
Defined.

(* ===================================================================== *)
(** * More on the merge of [scanExtensions] *)
(* ===================================================================== *)

Section MergeOrder.
Variable toKey : ExtensionIdentifier -> string.

Local Abbreviation keyOf := (keyOf toKey).
Local Abbreviation setExtension := (setExtension toKey).
Local Abbreviation setInstalledExtension := (setInstalledExtension toKey).
Local Abbreviation keyed := (keyed toKey).
Local Abbreviation keysOfScan := (keysOfScan toKey).

Lemma existsb_eqb_In k ks : existsb (String.eqb k) ks = true <-> In k ks.
Proof.
  rewrite existsb_exists. split.
  - intros (x & Hin & Hx). apply String.eqb_eq in Hx. now subst.
  - intros Hin. exists k. split; [assumption | apply String.eqb_refl].
Qed.

(** [set] leaves the keys where they are and puts a new key last. *)
Lemma keys_set_addKey V k (v : V) m :
  JsMap.keys (JsMap.set k v m) = addKey (JsMap.keys m) k.
Proof.
  unfold addKey, JsMap.keys.
  induction m as [|[k0 v0] m IH]; simpl; [reflexivity|].
  rewrite (String.eqb_sym k k0).
  destruct (String.eqb k0 k); simpl; [reflexivity|].
  rewrite IH. now destruct (existsb (String.eqb k) (map fst m)).
Qed.

Lemma set_fresh V k (v : V) m :
  ~ In k (JsMap.keys m) -> JsMap.set k v m = m ++ [(k, v)].
Proof.
  unfold JsMap.keys.
  induction m as [|[k0 v0] m IH]; simpl; intros Hnotin; [reflexivity|].
  destruct (String.eqb_spec k0 k) as [->|Hne].
  - exfalso. apply Hnotin. now left.
  - f_equal. apply IH. intros Hin. apply Hnotin. now right.
Qed.

Lemma keys_fold src : forall m,
  JsMap.keys (fold_left setExtension src m)
  = fold_left addKey (keysOfScan src) (JsMap.keys m).
Proof.
  unfold keysOfScan.
  induction src as [|[e|] src IH]; simpl; intros m; [reflexivity| |apply IH].
  rewrite IH. simpl. now rewrite keys_set_addKey.
Qed.

Lemma values_keys (m : Result) :
  keyed m -> map keyOf (JsMap.values m) = JsMap.keys m.
Proof.
  intros [_ Hk]. unfold JsMap.values, JsMap.keys.
  induction m as [|[k e] m IH]; simpl; [reflexivity|].
  rewrite IH by (intros k' e' Hin; apply Hk; now right).
  f_equal. symmetry. apply Hk. now left.
Qed.

(** The list [scanExtensions] returns: the values of the map the three
    loops have built. *)
Lemma scanExtensions_values builtin installed developed :
  scanExtensions toKey builtin installed developed
  = JsMap.values
      (fold_left setExtension developed
         (fold_left setExtension installed
            (fold_left setExtension builtin (JsMap.empty _)))).
Proof.
  unfold scanExtensions, scanExtensions_console.
  destruct (fold_left setInstalledExtension installed
              (fold_left setExtension builtin (JsMap.empty _), []))
    as [result console] eqn:E.
  simpl. f_equal. f_equal.
  rewrite <- (fold_setInstalledExtension toKey installed _ []). now rewrite E.
Qed.

Lemma merged_keyed builtin installed developed :
  keyed (fold_left setExtension developed
           (fold_left setExtension installed
              (fold_left setExtension builtin (JsMap.empty _)))).
Proof. repeat apply keyed_fold. apply keyed_empty. Qed.

Lemma In_fold k e src : forall m : Result,
  In (k, e) (fold_left setExtension src m) ->
  In (k, e) m \/ In e (yielded src).
Proof.
  induction src as [|[e0|] src IH]; simpl; intros m Hin; auto.
  apply IH in Hin. destruct Hin as [Hin|Hin]; [|now right; right].
  apply In_set in Hin. destruct Hin as [Heq|Hin]; [|now left].
  inversion Heq; subst. right. now left.
Qed.

Lemma In_keys_fold k src : forall m : Result,
  In k (JsMap.keys (fold_left setExtension src m))
  <-> In k (JsMap.keys m) \/ In k (keysOfScan src).
Proof.
  unfold keysOfScan.
  induction src as [|[e0|] src IH]; simpl; intros m.
  - intuition.
  - rewrite IH, keys_set. intuition.
  - apply IH.
Qed.

Lemma get_fold_last k e pre post : forall m : Result,
  keyOf e = k ->
  (forall e', In e' (yielded post) -> keyOf e' <> k) ->
  JsMap.get k (fold_left setExtension (pre ++ Some e :: post) m) = Some e.
Proof.
  intros m Hk Habs. rewrite fold_left_app. simpl.
  rewrite get_fold_absent by assumption.
  rewrite Hk. apply get_set_same.
Qed.

Lemma fold_yielded (A : Type)
    (f : A -> option IExtensionDescription -> A) src :
  (forall a, f a None = a) ->
  forall a, fold_left f (map Some (yielded src)) a = fold_left f src a.
Proof.
  intros Hnone. induction src as [|[e|] src IH]; simpl; intros a; auto.
  rewrite Hnone. apply IH.
Qed.

Lemma refill (m : Result) : forall acc : Result,
  keyed (acc ++ m) ->
  fold_left setExtension (map Some (JsMap.values m)) acc = acc ++ m.
Proof.
  unfold JsMap.values.
  induction m as [|[k e] m IH]; simpl; intros acc Hk.
  - now rewrite app_nil_r.
  - assert (Hke : k = keyOf e).
    { apply (proj2 Hk). apply in_or_app. right. now left. }
    assert (Hfresh : ~ In k (JsMap.keys acc)).
    { destruct Hk as [Hnd _]. unfold JsMap.keys in *.
      rewrite map_app in Hnd. simpl in Hnd.
      apply NoDup_remove_2 in Hnd. intros Hin. apply Hnd.
      apply in_or_app. now left. }
    rewrite <- Hke, set_fresh by assumption.
    rewrite IH; rewrite <- app_assoc; simpl; [reflexivity | assumption].
Qed.

(** The warnings of the installed loop, when the keys of the installed
    scan are distinct: one for each description whose key the map held
    before the loop. *)
Lemma console_fold installed : forall (m : Result) console,
  NoDup (keysOfScan installed) ->
  snd (fold_left setInstalledExtension installed (m, console))
  = console
      ++ flat_map
           (fun i =>
              match JsMap.get (keyOf i) m with
              | Some old =>
                  [mkWarning (extensionLocation old) (extensionLocation i)]
              | None => []
              end)
           (yielded installed).
Proof.
  unfold keysOfScan.
  induction installed as [|[e|] installed IH]; simpl; intros m console Hnd.
  - now rewrite app_nil_r.
  - inversion Hnd as [|? ? Hnotin Hnd']; subst.
    rewrite IH by assumption. unfold JsMap.has.
    assert (Hrest :
      flat_map
        (fun i =>
           match JsMap.get (keyOf i) (JsMap.set (keyOf e) e m) with
           | Some old =>
               [mkWarning (extensionLocation old) (extensionLocation i)]
           | None => []
           end) (yielded installed)
      = flat_map
          (fun i =>
             match JsMap.get (keyOf i) m with
             | Some old =>
                 [mkWarning (extensionLocation old) (extensionLocation i)]
             | None => []
             end) (yielded installed)).
    { clear IH Hnd Hnd'. induction (yielded installed) as [|i l IHl];
        simpl; [reflexivity|].
      rewrite IHl by (intros Hin; apply Hnotin; now right).
      rewrite get_set_other; [reflexivity|].
      intros Heq. apply Hnotin. left. now symmetry. }
    rewrite Hrest.
    destruct (JsMap.get (keyOf e) m); simpl;
      [now rewrite <- app_assoc | reflexivity].
  - now apply IH.
Qed.

Lemma get_fold_find k builtin :
  NoDup (keysOfScan builtin) ->
  JsMap.get k (fold_left setExtension builtin (JsMap.empty _))
  = find (fun b => String.eqb (keyOf b) k) (yielded builtin).
Proof.
  intros Hnd.
  destruct (find (fun b => String.eqb (keyOf b) k) (yielded builtin))
    as [b|] eqn:Hfind.
  - apply find_some in Hfind. destruct Hfind as [Hin Hk].
    apply String.eqb_eq in Hk. now apply get_fold_present.
  - rewrite get_fold_absent; [reflexivity|].
    intros e Hin Hk. apply (find_none _ _ Hfind) in Hin.
    apply String.eqb_neq in Hin. contradiction.
Qed.

End MergeOrder.

Lemma yielded_map_Some l : yielded (map Some l) = l.
Proof. induction l as [|e l IH]; simpl; [reflexivity | now rewrite IH]. Qed.

(** X1.  Whatever the three scans yield, the merged list holds every key
    once, and the keys stand in the order in which they are first met
    going through the builtin, then the installed, then the developed
    scan: a description that overrides another takes its place. *)
Theorem scanExtensions_key_order
    (toKey : ExtensionIdentifier -> string)
    (builtin installed developed : list (option IExtensionDescription)) :
  let merged := scanExtensions toKey builtin installed developed in
  map (keyOf toKey) merged
  = firstOccurrences (keysOfScan toKey builtin ++ keysOfScan toKey installed
                        ++ keysOfScan toKey developed)
  /\ NoDup (map (keyOf toKey) merged).
Proof.
  intros merged. subst merged. rewrite scanExtensions_values.
  rewrite values_keys by apply merged_keyed.
  split; [|apply merged_keyed].
  rewrite !keys_fold. unfold firstOccurrences.
  now rewrite !fold_left_app.
Qed.

(** X2.  The merge invents nothing and loses no key: every description of
    the merged list was yielded by one of the scans, and a key is in the
    merged list exactly when one of the scans yields a description with
    it. *)
Theorem scanExtensions_sound_complete
    (toKey : ExtensionIdentifier -> string)
    (builtin installed developed : list (option IExtensionDescription)) :
  let merged := scanExtensions toKey builtin installed developed in
  incl merged (yielded builtin ++ yielded installed ++ yielded developed)
  /\ forall k,
       In k (map (keyOf toKey) merged)
       <-> In k (keysOfScan toKey builtin ++ keysOfScan toKey installed
                   ++ keysOfScan toKey developed).
Proof.
  intros merged. subst merged. rewrite scanExtensions_values. split.
  - intros e Hin. unfold JsMap.values in Hin. apply in_map_iff in Hin.
    destruct Hin as ([k e'] & Heq & Hin). simpl in Heq. subst e'.
    apply In_fold in Hin. rewrite !in_app_iff.
    destruct Hin as [Hin|Hin]; [|now right; right].
    apply In_fold in Hin.
    destruct Hin as [Hin|Hin]; [|now right; left].
    apply In_fold in Hin.
    destruct Hin as [[]|Hin]. now left.
  - intros k. rewrite values_keys by apply merged_keyed.
    rewrite !In_keys_fold, !in_app_iff. simpl. intuition.
Qed.

(** X3.  Without any assumption on duplicates inside a scan: of the
    descriptions with one key, the last one yielded by the scan of
    highest precedence that yields any is the one entry of the merged
    list. *)
Theorem scanExtensions_last_wins
    (toKey : ExtensionIdentifier -> string)
    (builtin installed developed pre post : list (option IExtensionDescription))
    (e : IExtensionDescription) :
  let absent src :=
    forall e', In e' (yielded src) -> keyOf toKey e' <> keyOf toKey e in
  let merged := scanExtensions toKey builtin installed developed in
  absent post ->
  (developed = pre ++ Some e :: post
   \/ (absent developed /\ installed = pre ++ Some e :: post)
   \/ (absent developed /\ absent installed
       /\ builtin = pre ++ Some e :: post)) ->
  entriesFor toKey (keyOf toKey e) merged = [e].
Proof.
  intros absent merged Hpost Hcase. subst merged.
  rewrite scanExtensions_entriesFor.
  destruct Hcase as [-> | [[Hd ->] | (Hd & Hi & ->)]].
  - now rewrite get_fold_last.
  - rewrite get_fold_absent by assumption. now rewrite get_fold_last.
  - do 2 (rewrite get_fold_absent by assumption). now rewrite get_fold_last.
Qed.

(** Two folders of [acme.lint] in the installed scan: the second stands. *)
Lemma scanExtensions_last_wins_witness :
  entriesFor Examples.toKey "acme.lint"
    (scanExtensions Examples.toKey
       [Some Examples.sysLint]
       [Some Examples.userLint; Some Examples.userLint2; Some Examples.userGit]
       [])
  = [Examples.userLint2].
Proof.
  apply (@scanExtensions_last_wins Examples.toKey
           [Some Examples.sysLint]
           [Some Examples.userLint; Some Examples.userLint2;
            Some Examples.userGit]
           [] [Some Examples.userLint] [Some Examples.userGit]
           Examples.userLint2).
  - intros e' [<-|[]]. discriminate.
  - right. left. split; [intros e' [] | reflexivity].
Defined.

(** X4.  With distinct keys inside the builtin scan and inside the
    installed scan, the console gets one warning for each installed
    description whose key a builtin description has, in the order of the
    installed scan, naming the builtin location and the installed one;
    the developed loop adds none. *)
Theorem scanExtensions_warnings
    (toKey : ExtensionIdentifier -> string)
    (builtin installed developed : list (option IExtensionDescription)) :
  NoDup (keysOfScan toKey builtin) ->
  NoDup (keysOfScan toKey installed) ->
  snd (scanExtensions_console toKey builtin installed developed)
  = flat_map (collision toKey (yielded builtin)) (yielded installed).
Proof.
  intros Hb Hi. unfold scanExtensions_console.
  destruct (fold_left (setInstalledExtension toKey) installed
              (fold_left (setExtension toKey) builtin (JsMap.empty _), []))
    as [result console] eqn:E.
  simpl.
  assert (Hc : console = snd (fold_left (setInstalledExtension toKey) installed
                 (fold_left (setExtension toKey) builtin (JsMap.empty _), [])))
    by now rewrite E.
  rewrite Hc, console_fold by assumption. simpl.
  clear E Hc. induction (yielded installed) as [|i l IH]; simpl; [reflexivity|].
  rewrite IH. f_equal. unfold collision.
  now rewrite get_fold_find.
Qed.

Lemma scanExtensions_warnings_witness :
  snd (scanExtensions_console Examples.toKey
         [Some Examples.sysLint; Some Examples.sysGit]
         [Some Examples.userGit; None; Some Examples.userLint]
         [Some Examples.devLint])
  = [mkWarning "/sys/git" "/user/git";
     mkWarning "/sys/acme.lint" "/user/acme.lint"].
Proof.
  rewrite (@scanExtensions_warnings Examples.toKey
             [Some Examples.sysLint; Some Examples.sysGit]
             [Some Examples.userGit; None; Some Examples.userLint]
             [Some Examples.devLint]).
  - reflexivity.
  - repeat constructor; simpl; intuition discriminate.
  - repeat constructor; simpl; intuition discriminate.
Defined.

(** X5.  [null] entries of a scan count for nothing: the merged list and
    the warnings are those of the scans with the [null] entries left
    out. *)
Theorem scanExtensions_ignores_null
    (toKey : ExtensionIdentifier -> string)
    (builtin installed developed : list (option IExtensionDescription)) :
  scanExtensions_console toKey builtin installed developed
  = scanExtensions_console toKey (map Some (yielded builtin))
      (map Some (yielded installed)) (map Some (yielded developed)).
Proof.
  unfold scanExtensions_console.
  rewrite (fold_yielded (setExtension toKey) builtin) by reflexivity.
  rewrite (fold_yielded (setInstalledExtension toKey) installed)
    by (intros [m c]; reflexivity).
  destruct (fold_left (setInstalledExtension toKey) installed _)
    as [result console].
  now rewrite (fold_yielded (setExtension toKey) developed) by reflexivity.
Qed.

(** X6.  A merged list is stable: handed back to the merge as the only
    scan, in any of the three places, it comes out as it is and without a
    warning. *)
Theorem scanExtensions_stable
    (toKey : ExtensionIdentifier -> string)
    (builtin installed developed : list (option IExtensionDescription)) :
  let merged := map Some (scanExtensions toKey builtin installed developed) in
  scanExtensions_console toKey merged [] []
  = (scanExtensions toKey builtin installed developed, [])
  /\ scanExtensions_console toKey [] merged []
     = (scanExtensions toKey builtin installed developed, [])
  /\ scanExtensions_console toKey [] [] merged
     = (scanExtensions toKey builtin installed developed, []).
Proof.
  intros merged. subst merged. rewrite scanExtensions_values.
  set (m := fold_left _ developed _).
  assert (Hm : keyed toKey m) by apply merged_keyed.
  assert (Hfill : fold_left (setExtension toKey) (map Some (JsMap.values m))
                    (JsMap.empty _) = m)
    by (apply (refill (toKey := toKey) m (JsMap.empty _)); exact Hm).
  assert (Hfst : fst (fold_left (setInstalledExtension toKey)
                        (map Some (JsMap.values m)) (JsMap.empty _, [])) = m).
  { rewrite fold_setInstalledExtension. exact Hfill. }
  assert (Hsnd : snd (fold_left (setInstalledExtension toKey)
                        (map Some (JsMap.values m)) (JsMap.empty _, [])) = []).
  { rewrite console_fold; simpl.
    - induction (yielded (map Some (JsMap.values m))); simpl; auto.
    - unfold keysOfScan. rewrite yielded_map_Some.
      rewrite values_keys by assumption. apply Hm. }
  unfold scanExtensions_console. simpl. rewrite Hfill.
  match goal with
  | |- context [fold_left (setInstalledExtension toKey) ?l ?a] =>
      remember (fold_left (setInstalledExtension toKey) l a) as F eqn:HF
  end.
  assert (Hfst' : fst F = m) by (subst F; exact Hfst).
  assert (Hsnd' : snd F = []) by (subst F; exact Hsnd).
  destruct F as [result console]. simpl in Hfst', Hsnd'. subst result console.
  repeat split.
Qed.

(* ===================================================================== *)
(** * More on the [when] clause rewriter *)
(* ===================================================================== *)

Lemma prefix_file s : String.prefix "file" s = startsFile s.
Proof.
  apply eq_true_iff_eq. rewrite prefix_append. split.
  - intros (b & ->). reflexivity.
  - apply startsFile_inv.
Qed.

Lemma contains_file_cons c t :
  c <> "f"%char -> contains "file" (String c t) = contains "file" t.
Proof.
  intros Hne. rewrite contains_unfold, prefix_file.
  destruct (startsFile (String c t)) eqn:E; [|reflexivity].
  apply startsFile_head in E. contradiction.
Qed.

Lemma contains_file_remote s :
  contains "file" ("vscode-remote" ++ s) = contains "file" s.
Proof.
  simpl String.append.
  repeat (rewrite contains_file_cons by discriminate).
  reflexivity.
Qed.

Lemma mapResourceSchemeValue_no_file_aux (value : string) (isRegex : bool) :
  contains "file" (_mapResourceSchemeValue value isRegex) = false.
Proof.
  unfold _mapResourceSchemeValue.
  remember (String.length value) as n eqn:Hn.
  revert value Hn. induction n as [n IH] using lt_wf_ind. intros s Hn.
  destruct s as [|c t]; [reflexivity|].
  rewrite replaceFile_unfold.
  destruct (startsFile (String c t)) eqn:E.
  - apply startsFile_inv in E. destruct E as (rest & Hrest).
    simpl in Hrest. inversion Hrest; subst.
    rewrite contains_file_remote.
    apply (IH (String.length rest)); [simpl; lia | reflexivity].
  - rewrite contains_unfold, prefix_file.
    destruct (startsFile (String c (replaceFile t))) eqn:E'.
    + apply startsFile_replaceFile in E'. congruence.
    + apply (IH (String.length t)); [subst n; simpl; lia | reflexivity].
Qed.

(** X7.  What [_mapResourceSchemeValue] returns holds no [file]: every
    occurrence is replaced and the replacements bring in none; so a
    second application changes nothing. *)
Theorem mapResourceSchemeValue_no_file (value : string) (isRegex : bool) :
  contains "file" (_mapResourceSchemeValue value isRegex) = false
  /\ _mapResourceSchemeValue (_mapResourceSchemeValue value isRegex) isRegex
     = _mapResourceSchemeValue value isRegex.
Proof.
  split; [apply mapResourceSchemeValue_no_file_aux|].
  apply replaceFile_idempotent.
Qed.

(** X8.  [_mapResourceSchemeValue] returns its argument exactly when the
    argument holds no [file]. *)
Theorem mapResourceSchemeValue_unchanged (value : string) (isRegex : bool) :
  _mapResourceSchemeValue value isRegex = value
  <-> contains "file" value = false.
Proof.
  split.
  - intros H. rewrite <- H. apply mapResourceSchemeValue_no_file_aux.
  - unfold _mapResourceSchemeValue.
    induction value as [|c t IH]; [reflexivity|].
    rewrite contains_unfold, prefix_file, replaceFile_unfold.
    destruct (startsFile (String c t)); [discriminate|].
    intros H. now rewrite IH.
Qed.

Lemma mapThrows_id A (f : A -> Throws A) (l : list A) :
  (forall a, In a l -> f a = Some a) -> mapThrows f l = Some l.
Proof.
  induction l as [|a l IH]; simpl; intros Hf; [reflexivity|].
  rewrite (Hf a (or_introl eq_refl)).
  rewrite IH; [reflexivity|]. intros a' Hin. apply Hf. now right.
Qed.

Lemma mapThrows_map A B (f : A -> Throws A) (g : A -> B) (l : list A) :
  forall l',
  (forall a b, In a l -> f a = Some b -> g b = g a) ->
  mapThrows f l = Some l' -> map g l' = map g l.
Proof.
  induction l as [|a l IH]; simpl; intros l' Hg Hmap.
  - inversion Hmap. reflexivity.
  - destruct (f a) as [b|] eqn:Hfa; [|discriminate].
    destruct (mapThrows f l) as [bs|] eqn:Hl; [|discriminate].
    inversion Hmap; subst l'. simpl. f_equal.
    + now apply Hg with (a := a); [left|].
    + apply IH; [|reflexivity]. intros a' b' Hin. apply Hg. now right.
Qed.

Lemma replaceFile_unchanged_aux s :
  replaceFile s = s <-> contains "file" s = false.
Proof.
  split.
  - intros H. rewrite <- H.
    apply (mapResourceSchemeValue_no_file_aux s false).
  - induction s as [|c t IH]; [reflexivity|].
    rewrite contains_unfold, prefix_file, replaceFile_unfold.
    destruct (startsFile (String c t)); [discriminate|].
    intros H. now rewrite IH.
Qed.

Lemma mapResourceRegExpValue_flags_aux
    (regexpAccepts : string -> string -> bool) (value : RegExp) :
  _mapResourceRegExpValue regexpAccepts value
  = if rebuildAccepted regexpAccepts value
    then Some (mkRegExp (_mapResourceSchemeValue (source value) true)
                 (global value) (ignoreCase value) (multiline value) "")
    else None.
Proof.
  destruct value as [src g i m other].
  unfold _mapResourceRegExpValue, newRegExp, rebuildAccepted, rebuiltFlags.
  destruct g, i, m; simpl; destruct (regexpAccepts _ _); reflexivity.
Qed.

(** X9.  [_mapResourceRegExpValue] asks the engine for the rewritten
    source with a flags string made of [g], [i] and [m] alone, each one
    present when the expression given has it.  It throws exactly when the
    engine turns that down; otherwise the expression it returns has the
    flags this string holds: the same [g], [i] and [m], and none of the
    other flags ([s], [u], [y], ...) the expression given carries.  So
    the expression comes back as it was exactly when its source holds no
    [file] and it carries no flag other than [g], [i] and [m]. *)
Theorem mapResourceRegExpValue_flags
    (regexpAccepts : string -> string -> bool) (value : RegExp) :
  otherFlagsOf (rebuiltFlags value) = ""
  /\ (_mapResourceRegExpValue regexpAccepts value = None
      <-> regexpAccepts (_mapResourceSchemeValue (source value) true)
            (rebuiltFlags value) = false)
  /\ (forall r,
        _mapResourceRegExpValue regexpAccepts value = Some r ->
        r = mkRegExp (_mapResourceSchemeValue (source value) true)
              (global value) (ignoreCase value) (multiline value) ""
        /\ (r = value
            <-> contains "file" (source value) = false
                /\ otherFlags value = "")).
Proof.
  rewrite mapResourceRegExpValue_flags_aux. unfold rebuildAccepted.
  split; [|split].
  - unfold rebuiltFlags.
    now destruct (global value), (ignoreCase value), (multiline value).
  - destruct (regexpAccepts _ _); split; intros H;
      first [discriminate | reflexivity].
  - intros r. destruct (regexpAccepts _ _); [|discriminate].
    intros H. inversion H as [Hr]. clear H. split; [reflexivity|].
    destruct value as [src g i m other]. simpl.
    unfold _mapResourceSchemeValue. split.
    + intros Heq. injection Heq as Hsrc Hother.
      split; [now apply replaceFile_unchanged_aux | now symmetry].
    + intros (Hsrc & ->). f_equal. now apply replaceFile_unchanged_aux.
Qed.

(** An expression without [file] in its source still comes back changed
    when it is sticky. *)
Lemma mapResourceRegExpValue_flags_witness :
  _mapResourceRegExpValue Examples.regexpAccepts
    (mkRegExp "^src$" false true false "y")
  = Some (mkRegExp "^src$" false true false "")
  /\ mkRegExp "^src$" false true false ""
     <> mkRegExp "^src$" false true false "y".
Proof.
  split; [reflexivity|].
  destruct (@mapResourceRegExpValue_flags Examples.regexpAccepts
              (mkRegExp "^src$" false true false "y")) as (_ & _ & H).
  destruct (H _ eq_refl) as (_ & Hiff).
  intros Heq. apply Hiff in Heq. destruct Heq as (_ & Heq). discriminate.
Defined.

(** A sticky, unicode expression on [file] loses both flags and keeps
    [i]; an engine that takes no pattern with a brace makes the rewriter
    throw on [file{2}]. *)
Example mapResourceRegExpValue_flags_example :
  _mapResourceRegExpValue (fun _ _ => true)
    (mkRegExp "^file$" false true false "uy")
  = Some (mkRegExp "^vscode-remote$" false true false "")
  /\ _mapResourceRegExpValue (fun pattern _ => negb (contains "{" pattern))
       (mkRegExp "file{2}" true false false "")
     = None.
Proof. split; reflexivity. Qed.

(** X10.  The mapper rewrites nothing but operands of [resourceScheme]:
    an expression none of whose atoms has that key comes back as it is,
    and mapping it never throws, whatever the operands hold. *)
Theorem exprMap_other_keys
    (regexpAccepts : string -> string -> bool) (e : ContextKeyExpression) :
  ~ In "resourceScheme" (atomKeys e) ->
  exprMap (_exprKeyMapper regexpAccepts) e = Some e.
Proof.
  induction e as [key|key|key v|key v|key regexp|key valueKey|es IH|es IH]
    using expression_ind; simpl; intros Hno; try reflexivity.
  - destruct v; [|reflexivity].
    destruct (String.eqb_spec key "resourceScheme"); [|reflexivity].
    exfalso. apply Hno. now left.
  - destruct v; [|reflexivity].
    destruct (String.eqb_spec key "resourceScheme"); [|reflexivity].
    exfalso. apply Hno. now left.
  - destruct regexp; [|reflexivity].
    destruct (String.eqb_spec key "resourceScheme"); [|reflexivity].
    exfalso. apply Hno. now left.
  - change (exprMap (_exprKeyMapper regexpAccepts) (ContextKeyAndExpr es)
            = Some (ContextKeyAndExpr es)).
    rewrite exprMap_And, mapThrows_id; [reflexivity|].
    intros a Hin. rewrite Forall_forall in IH. apply IH; [assumption|].
    intros Hk. apply Hno. apply in_flat_map. now exists a.
  - change (exprMap (_exprKeyMapper regexpAccepts) (ContextKeyOrExpr es)
            = Some (ContextKeyOrExpr es)).
    rewrite exprMap_Or, mapThrows_id; [reflexivity|].
    intros a Hin. rewrite Forall_forall in IH. apply IH; [assumption|].
    intros Hk. apply Hno. apply in_flat_map. now exists a.
Qed.

Lemma exprMap_other_keys_witness :
  exprMap (_exprKeyMapper (fun _ _ => false)) Examples.plainExpression
  = Some Examples.plainExpression.
Proof.
  apply (@exprMap_other_keys (fun _ _ => false) Examples.plainExpression).
  simpl. intuition discriminate.
Defined.

Section MassageMore.
Variable regexpAccepts : string -> string -> bool.
Variable deserialize : string -> option ContextKeyExpression.
Variable serialize : ContextKeyExpression -> string.

Local Abbreviation _massageWhenUser :=
  (_massageWhenUser regexpAccepts deserialize serialize).
Local Abbreviation _massageWhenUserArr :=
  (_massageWhenUserArr regexpAccepts deserialize serialize).
Local Abbreviation _massageLocWhenUser :=
  (_massageLocWhenUser regexpAccepts deserialize serialize).
Local Abbreviation massageContributes :=
  (massageContributes regexpAccepts deserialize serialize).
Local Abbreviation massageExtension :=
  (massageExtension regexpAccepts deserialize serialize).
Local Abbreviation massageWhenConditions :=
  (massageWhenConditions regexpAccepts deserialize serialize).

Lemma whenPresent_id A (f : A -> Throws A) (x : option A) :
  (forall a, x = Some a -> f a = Some a) -> whenPresent f x = Some x.
Proof.
  destruct x as [a|]; simpl; intros Hf; [|reflexivity].
  now rewrite (Hf a eq_refl).
Qed.

Lemma whenPresent_map A B (f : A -> Throws A) (g : A -> B) (x x' : option A) :
  (forall a b, x = Some a -> f a = Some b -> g b = g a) ->
  whenPresent f x = Some x' -> option_map g x' = option_map g x.
Proof.
  destruct x as [a|]; simpl; intros Hg H.
  - destruct (f a) as [b|] eqn:Hfa; [|discriminate].
    inversion H; subst. simpl. f_equal. now apply Hg with (a := a).
  - now inversion H.
Qed.

(** Clauses that do not mention the resource scheme: nothing is parsed and
    the descriptions come back as they are. *)
Lemma massageWhenConditions_skips extensions :
  (forall w, In w (whensOf extensions) ->
             contains "resourceScheme" w = false) ->
  massageWhenConditions extensions = Some extensions.
Proof.
  intros Hskip.
  assert (Huser : forall element,
             (forall w, In w (whensOfUser element) ->
                        contains "resourceScheme" w = false) ->
             _massageWhenUser element = Some element).
  { intros [el|] Hel; [|reflexivity].
    apply _massageWhenUser_skips. simpl in Hel.
    destruct (when el) as [w|]; [|exact I].
    right; left. apply Hel. now left. }
  assert (Harr : forall elements,
             (forall w, In w (whensOfUsers elements) ->
                        contains "resourceScheme" w = false) ->
             _massageWhenUserArr elements = Some elements).
  { intros [element|l] Hel; simpl.
    - now rewrite Huser.
    - rewrite mapThrows_id; [reflexivity|].
      intros a Hin. apply Huser. intros w Hw. apply Hel. simpl.
      apply in_flat_map. now exists a. }
  assert (Hloc : forall target,
             (forall w, In w (whensOfLoc target) ->
                        contains "resourceScheme" w = false) ->
             _massageLocWhenUser target = Some target).
  { intros target Ht. apply mapThrows_id. intros [loc users] Hin. simpl.
    rewrite Harr; [reflexivity|].
    intros w Hw. apply Ht. unfold whensOfLoc. apply in_flat_map.
    now exists (loc, users). }
  apply mapThrows_id. intros [i l b u c] Hin.
  unfold massageExtension. simpl.
  rewrite whenPresent_id; [reflexivity|].
  intros c0 ->. unfold massageContributes.
  assert (Hc : forall w, In w (whensOfContributes c0) ->
                         contains "resourceScheme" w = false).
  { intros w Hw. apply Hskip. unfold whensOf. apply in_flat_map.
    eexists. split; [exact Hin | exact Hw]. }
  unfold whensOfContributes in Hc.
  rewrite !whenPresent_id; [now destruct c0 | | |].
  - intros a Ha. apply Hloc. intros w Hw. apply Hc. rewrite Ha. simpl.
    apply in_or_app. right. apply in_or_app. now right.
  - intros a Ha. apply Harr. intros w Hw. apply Hc. rewrite Ha. simpl.
    apply in_or_app. right. apply in_or_app. now left.
  - intros a Ha. apply Hloc. intros w Hw. apply Hc. rewrite Ha. simpl.
    apply in_or_app. now left.
Qed.

(** The rewriter assigns [when] and nothing else. *)
Lemma massageWhenConditions_blank extensions once :
  massageWhenConditions extensions = Some once ->
  map blankExtension once = map blankExtension extensions.
Proof.
  assert (Huser : forall element element',
             _massageWhenUser element = Some element' ->
             blankWhenUser element' = blankWhenUser element).
  { intros [el|] element'; simpl; [|intros H; now inversion H].
    destruct (when el) as [w|] eqn:Hw;
      [|intros H; inversion H; subst; simpl; now rewrite Hw].
    destruct (_ || _);
      [intros H; inversion H; subst; simpl; now rewrite Hw|].
    destruct (deserialize w);
      [|intros H; inversion H; subst; simpl; now rewrite Hw].
    destruct (exprMap _ _); [|discriminate].
    intros H; inversion H; subst. reflexivity. }
  assert (Harr : forall elements elements',
             _massageWhenUserArr elements = Some elements' ->
             blankWhenUsers elements' = blankWhenUsers elements).
  { intros [element|l] elements'; simpl.
    - destruct (_massageWhenUser element) eqn:He; [|discriminate].
      intros H; inversion H; subst. simpl. f_equal. now apply Huser.
    - destruct (mapThrows _massageWhenUser l) as [l'|] eqn:Hl; [|discriminate].
      intros H; inversion H; subst. simpl. f_equal.
      apply mapThrows_map with (f := _massageWhenUser); [|assumption].
      intros a b _. apply Huser. }
  assert (Hloc : forall target target',
             _massageLocWhenUser target = Some target' ->
             blankLocWhenUser target' = blankLocWhenUser target).
  { intros target target'. unfold blankLocWhenUser.
    apply mapThrows_map. intros [loc users] [loc' users'] _. simpl.
    destruct (_massageWhenUserArr users) as [users1|] eqn:Hu; [|discriminate].
    intros H; inversion H; subst. f_equal. now apply Harr. }
  assert (Hcon : forall c c',
             massageContributes c = Some c' ->
             blankContributes c' = blankContributes c).
  { intros c c'. unfold massageContributes.
    destruct (whenPresent _massageLocWhenUser (menus c)) as [m'|] eqn:Hm;
      [|discriminate].
    destruct (whenPresent _massageWhenUserArr (keybindings c)) as [k'|] eqn:Hk;
      [|discriminate].
    destruct (whenPresent _massageLocWhenUser (views c)) as [v'|] eqn:Hv;
      [|discriminate].
    intros H; inversion H; subst. unfold blankContributes. simpl.
    rewrite (@whenPresent_map _ _ _massageLocWhenUser blankLocWhenUser
               (menus c) m');
      [|intros a b _; apply Hloc | assumption].
    rewrite (@whenPresent_map _ _ _massageWhenUserArr blankWhenUsers
               (keybindings c) k');
      [|intros a b _; apply Harr | assumption].
    rewrite (@whenPresent_map _ _ _massageLocWhenUser blankLocWhenUser
               (views c) v');
      [|intros a b _; apply Hloc | assumption].
    reflexivity. }
  apply mapThrows_map. intros extension extension' _.
  unfold massageExtension.
  destruct (whenPresent massageContributes (contributes extension))
    as [c'|] eqn:Hc; [|discriminate].
  intros H; inversion H; subst. unfold blankExtension. simpl. f_equal.
  apply (@whenPresent_map _ _ massageContributes blankContributes
           (contributes extension) c'); [|assumption].
  intros a b _. apply Hcon.
Qed.

(** The rewriter returns as soon as the mapper does on the expressions
    the clauses of the list are read as. *)
Lemma massageWhenConditions_returns_in extensions :
  (forall w e, In w (whensOf extensions) -> deserialize w = Some e ->
               exists e', exprMap (_exprKeyMapper regexpAccepts) e = Some e') ->
  exists once, massageWhenConditions extensions = Some once.
Proof.
  intros Hmap.
  assert (Huser : forall element,
             (forall w e, In w (whensOfUser element) -> deserialize w = Some e ->
                exists e', exprMap (_exprKeyMapper regexpAccepts) e = Some e') ->
             exists r, _massageWhenUser element = Some r).
  { intros [el|] Hel; simpl; [|eauto]. simpl in Hel.
    destruct (when el) as [w|]; [|eauto].
    destruct (String.eqb w "" || negb (contains "resourceScheme" w))%bool;
      [eauto|].
    destruct (deserialize w) as [expr|] eqn:Hd; [|eauto].
    destruct (Hel w expr) as (e' & ->); [now left | assumption | eauto]. }
  assert (Harr : forall elements,
             (forall w e, In w (whensOfUsers elements) -> deserialize w = Some e ->
                exists e', exprMap (_exprKeyMapper regexpAccepts) e = Some e') ->
             exists r, _massageWhenUserArr elements = Some r).
  { intros [element|l] Hel; simpl.
    - destruct (Huser element Hel) as (r & ->). simpl. eauto.
    - destruct (@mapThrows_returns _ _ _massageWhenUser l) as (r & ->);
        [|simpl; eauto].
      intros a Hin. apply Huser. intros w e Hw. apply Hel. simpl.
      apply in_flat_map. now exists a. }
  assert (Hloc : forall target,
             (forall w e, In w (whensOfLoc target) -> deserialize w = Some e ->
                exists e', exprMap (_exprKeyMapper regexpAccepts) e = Some e') ->
             exists r, _massageLocWhenUser target = Some r).
  { intros target Ht. apply mapThrows_returns. intros [loc users] Hin. simpl.
    destruct (Harr users) as (r & ->); [|simpl; eauto].
    intros w e Hw. apply Ht. unfold whensOfLoc. apply in_flat_map.
    now exists (loc, users). }
  apply mapThrows_returns. intros extension Hin.
  unfold massageExtension.
  destruct (contributes extension) as [c|] eqn:Hc; simpl; [|eauto].
  assert (Hcs : forall w e, In w (whensOfContributes c) ->
                  deserialize w = Some e ->
                  exists e', exprMap (_exprKeyMapper regexpAccepts) e = Some e').
  { intros w e Hw. apply Hmap. unfold whensOf. apply in_flat_map.
    exists extension. split; [exact Hin|]. now rewrite Hc. }
  unfold whensOfContributes in Hcs. unfold massageContributes.
  destruct (menus c) as [ms|]; simpl in *.
  - destruct (Hloc ms) as (ms' & ->);
      [intros w e Hw; apply Hcs; apply in_or_app; now left|].
    simpl.
    destruct (keybindings c) as [ks|]; simpl in *.
    + destruct (Harr ks) as (ks' & ->);
        [intros w e Hw; apply Hcs; apply in_or_app; right;
         apply in_or_app; now left|].
      simpl.
      destruct (views c) as [vs|]; simpl in *; [|eauto].
      destruct (Hloc vs) as (vs' & ->);
        [intros w e Hw; apply Hcs; apply in_or_app; right;
         apply in_or_app; now right|].
      simpl. eauto.
    + destruct (views c) as [vs|]; simpl in *; [|eauto].
      destruct (Hloc vs) as (vs' & ->);
        [intros w e Hw; apply Hcs; apply in_or_app; now right|].
      simpl. eauto.
  - destruct (keybindings c) as [ks|]; simpl in *.
    + destruct (Harr ks) as (ks' & ->);
        [intros w e Hw; apply Hcs; apply in_or_app; now left|].
      simpl.
      destruct (views c) as [vs|]; simpl in *; [|eauto].
      destruct (Hloc vs) as (vs' & ->);
        [intros w e Hw; apply Hcs; apply in_or_app; now right|].
      simpl. eauto.
    + destruct (views c) as [vs|]; simpl in *; [|eauto].
      destruct (Hloc vs) as (vs' & ->); [intros w e Hw; now apply Hcs|].
      simpl. eauto.
Qed.

End MassageMore.

Lemma exprMap_returns_regexps (regexpAccepts : string -> string -> bool) e :
  (forall r, In r (resourceRegExps e) -> rebuildAccepted regexpAccepts r = true) ->
  exists e', exprMap (_exprKeyMapper regexpAccepts) e = Some e'.
Proof.
  induction e as [key|key|key v|key v|key regexp|key valueKey|es H|es H]
    using expression_ind; intros Hacc;
    try (simpl; eauto; fail).
  - simpl. destruct v; [destruct (String.eqb key _)|]; eauto.
  - simpl. destruct v; [destruct (String.eqb key _)|]; eauto.
  - simpl in *. destruct regexp as [r|]; [|eauto].
    destruct (String.eqb key _); [|eauto].
    rewrite mapResourceRegExpValue_flags_aux, Hacc; [|now left]. simpl. eauto.
  - rewrite exprMap_And.
    destruct (@mapThrows_returns _ _
                (exprMap (_exprKeyMapper regexpAccepts)) es) as (es' & ->);
      [|simpl; eauto].
    intros a Hin. rewrite Forall_forall in H. apply H; [assumption|].
    intros r Hr. apply Hacc. simpl. apply in_flat_map. now exists a.
  - rewrite exprMap_Or.
    destruct (@mapThrows_returns _ _
                (exprMap (_exprKeyMapper regexpAccepts)) es) as (es' & ->);
      [|simpl; eauto].
    intros a Hin. rewrite Forall_forall in H. apply H; [assumption|].
    intros r Hr. apply Hacc. simpl. apply in_flat_map. now exists a.
Qed.

(** X11.  The fast path for whole lists: when no [when] clause of the
    descriptions contains [resourceScheme], [massageWhenConditions]
    returns the descriptions as they are, whatever [deserialize] would
    make of the clauses. *)
Theorem massageWhenConditions_fast_path
    (regexpAccepts : string -> string -> bool)
    (deserialize : string -> option ContextKeyExpression)
    (serialize : ContextKeyExpression -> string)
    (extensions : list IExtensionDescription) :
  Forall (fun w => contains "resourceScheme" w = false) (whensOf extensions) ->
  massageWhenConditions regexpAccepts deserialize serialize extensions
  = Some extensions.
Proof.
  intros Hskip. apply massageWhenConditions_skips.
  now apply Forall_forall.
Qed.

Lemma massageWhenConditions_fast_path_witness :
  massageWhenConditions (fun _ _ => false) (fun _ => None) (fun _ => "")
    [Examples.plainExtension; Examples.sysGit]
  = Some [Examples.plainExtension; Examples.sysGit].
Proof.
  apply (@massageWhenConditions_fast_path (fun _ _ => false) (fun _ => None)
           (fun _ => "") [Examples.plainExtension; Examples.sysGit]).
  repeat constructor.
Defined.

(** X12.  [massageWhenConditions] touches the text of [when] clauses and
    nothing else: the rewritten list has the same descriptions in the
    same order, each with its identifier, location and flags, the same
    menus, keybindings and views with the same entries and properties,
    and an entry has a clause after the rewriting exactly when it had
    one before. *)
Theorem massageWhenConditions_frame
    (regexpAccepts : string -> string -> bool)
    (deserialize : string -> option ContextKeyExpression)
    (serialize : ContextKeyExpression -> string)
    (extensions once : list IExtensionDescription) :
  massageWhenConditions regexpAccepts deserialize serialize extensions
  = Some once ->
  map blankExtension once = map blankExtension extensions.
Proof. apply massageWhenConditions_blank. Qed.

Lemma massageWhenConditions_frame_witness :
  map blankExtension [Examples.lintExtensionMassaged]
  = map blankExtension [Examples.lintExtension].
Proof.
  apply (@massageWhenConditions_frame Examples.regexpAccepts
           Examples.deserialize Examples.serialize
           [Examples.lintExtension] [Examples.lintExtensionMassaged]).
  reflexivity.
Defined.

(** X13.  With [deserialize] and [serialize] that do not throw, the only
    way for [massageWhenConditions] to throw is the [new RegExp] of
    [_mapResourceRegExpValue]: when the engine accepts the rebuilt form
    (rewritten source, flags [g], [i], [m]) of every regular expression
    that a clause of the list holds on [resourceScheme], the rewriter
    returns, malformed clauses included.  Nothing is asked of the engine
    on any other pattern. *)
Theorem massageWhenConditions_no_throw
    (regexpAccepts : string -> string -> bool)
    (deserialize : string -> option ContextKeyExpression)
    (serialize : ContextKeyExpression -> string)
    (extensions : list IExtensionDescription) :
  (forall w e r,
      In w (whensOf extensions) ->
      deserialize w = Some e ->
      In r (resourceRegExps e) ->
      regexpAccepts (_mapResourceSchemeValue (source r) true) (rebuiltFlags r)
      = true) ->
  exists once,
    massageWhenConditions regexpAccepts deserialize serialize extensions
    = Some once.
Proof.
  intros Hacc. apply massageWhenConditions_returns_in.
  intros w e Hw He. apply exprMap_returns_regexps.
  intros r Hr. exact (Hacc w e r Hw He Hr).
Qed.

(** An engine that turns some patterns down, and a list with a regular
    expression, a clause on another key and a malformed clause. *)
Lemma massageWhenConditions_no_throw_witness :
  Examples.strictEngine "(file" "" = false
  /\ exists once,
       massageWhenConditions Examples.strictEngine Examples.regexReader
         Examples.serialize [Examples.regexExtension]
       = Some once.
Proof.
  split; [reflexivity|].
  apply (@massageWhenConditions_no_throw Examples.strictEngine
           Examples.regexReader Examples.serialize [Examples.regexExtension]).
  intros w e r Hw He Hr. simpl in Hw.
  destruct Hw as [<-|[<-|[<-|[]]]]; vm_compute in He;
    try discriminate;
    inversion He; subst e; simpl in Hr; try contradiction;
    destruct Hr as [<-|[]]; reflexivity.
Defined.

Example massageWhenConditions_regexp :
  massageWhenConditions Examples.strictEngine Examples.regexReader
    Examples.serialize [Examples.regexExtension]
  = Some [Examples.regexExtensionMassaged].
Proof. reflexivity. Qed.

(* ===================================================================== *)
(** * More on [getEnvironmentData] *)
(* ===================================================================== *)

Lemma getEnvironmentDataTimes_paths
    (URI : Type) (URI_file : string -> URI) (join : string -> string -> string)
    (this : RemoteAgentEnvironmentChannel URI) (k : nat) : forall pool,
  (pool + N.of_nat k <= maxCounter)%N ->
  map (@dto_extensionHostLogsPath URI)
    (fst (getEnvironmentDataTimes URI_file join this k pool))
  = map (fun i => URI_file (join (logsPath (environmentService this))
                              (exthostName (pool + N.of_nat i))))
      (seq 0 k).
Proof.
  induction k as [|k IH]; intros pool Hle; [reflexivity|].
  cbn [getEnvironmentDataTimes].
  rewrite (surjective_pairing (getEnvironmentData URI_file join this pool)).
  rewrite getEnvironmentData_counter, postIncrement_below by lia.
  specialize (IH (pool + 1)%N).
  destruct (getEnvironmentDataTimes URI_file join this k (pool + 1))
    as [dtos pool2].
  cbn [fst snd map] in *. rewrite IH by lia.
  rewrite getEnvironmentData_logPath.
  cbn [seq map]. rewrite N.add_0_r. f_equal.
  rewrite <- seq_shift, map_map. apply map_ext. intros i.
  do 3 f_equal. lia.
Qed.

Lemma NoDup_map_injective A B (f : A -> B) (l : list A) :
  (forall x y, f x = f y -> x = y) -> NoDup l -> NoDup (map f l).
Proof.
  intros Hinj Hnd. induction Hnd as [|x l Hnotin Hnd IH]; simpl; constructor.
  - intros Hin. apply in_map_iff in Hin. destruct Hin as (y & Hy & Hin).
    apply Hinj in Hy. now subst.
  - exact IH.
Qed.

(** X14.  Any number [k] of calls of [getEnvironmentData] in a row, from
    any value of the counter that leaves room for them below [2^53]: the
    log paths they return are the logs folder joined with [exthost] and
    the [k] successive values of the counter, the counter ends up
    advanced by [k], and no two of the paths are equal, given that
    [URI.file] and [join] keep different folder names apart. *)
Theorem getEnvironmentData_all_distinct
    (URI : Type) (URI_file : string -> URI) (join : string -> string -> string)
    (this : RemoteAgentEnvironmentChannel URI) (pool : N) (k : nat) :
  (forall dir m n,
      URI_file (join dir (exthostName m)) = URI_file (join dir (exthostName n)) ->
      exthostName m = exthostName n) ->
  (pool + N.of_nat k <= maxCounter)%N ->
  let calls := getEnvironmentDataTimes URI_file join this k pool in
  let paths := map (@dto_extensionHostLogsPath URI) (fst calls) in
  paths = map (fun i => URI_file (join (logsPath (environmentService this))
                                    ("exthost"
                                     ++ numberToString (pool + N.of_nat i))%string))
            (seq 0 k)
  /\ snd calls = (pool + N.of_nat k)%N
  /\ NoDup paths.
Proof.
  intros Hinj Hbound calls paths. subst paths calls.
  rewrite getEnvironmentDataTimes_paths, getEnvironmentDataTimes_counter
    by assumption.
  split; [reflexivity|]. split; [reflexivity|].
  apply NoDup_map_injective; [|apply seq_NoDup].
  intros m n H. apply Hinj in H. apply exthostName_inj in H. lia.
Qed.

Lemma getEnvironmentData_all_distinct_witness :
  map (@dto_extensionHostLogsPath string)
    (fst (getEnvironmentDataTimes Examples.URI_file Examples.join
            Examples.channel 3 1))
  = ["file:///home/u/.app/logs/exthost1"; "file:///home/u/.app/logs/exthost2";
     "file:///home/u/.app/logs/exthost3"]
  /\ NoDup (map (@dto_extensionHostLogsPath string)
              (fst (getEnvironmentDataTimes Examples.URI_file Examples.join
                      Examples.channel 3 1))).
Proof.
  destruct (@getEnvironmentData_all_distinct string Examples.URI_file
              Examples.join Examples.channel 1 3) as (Hpaths & _ & Hnd).
  - unfold Examples.URI_file, Examples.join. intros dir m n H.
    now do 3 apply append_inj_l in H.
  - vm_compute. discriminate.
  - split; [exact Hpaths | exact Hnd].
Defined.

(* ===================================================================== *)
(** * More on the web extension management service *)
(* ===================================================================== *)

(** X15.  For an extension the user has configured to run on the web,
    [canInstall] answers [true] and [getCompatibleVersion] answers a
    version, whatever the base class answers: the version the base class
    found when it found one, the extension asked about otherwise.
    Neither touches the installed store. *)
Theorem web_configured_always_installable
    (getUserConfiguredExtensionKind
       : IExtensionIdentifier -> option (list ExtensionKind))
    (S : Type) (h : Host S) (gallery : Gallery.t)
    (sameVersion includePreRelease : bool) (s s1 s2 : S)
    (compatible : bool) (version : option Gallery.t) :
  isConfiguredToExecuteOnWeb getUserConfiguredExtensionKind gallery = true ->
  handle h (super_canInstall gallery) s = (Some compatible, s1) ->
  handle h (super_getCompatibleVersion gallery sameVersion includePreRelease) s
  = (Some version, s2) ->
  let can := run h (canInstall getUserConfiguredExtensionKind gallery) s in
  let found := run h (getCompatibleVersion getUserConfiguredExtensionKind
                        gallery sameVersion includePreRelease) s in
  result can = Some true
  /\ result found = Some (Some match version with
                               | Some v => v
                               | None => gallery
                               end)
  /\ existsb eventTouchesStore (trace can ++ trace found) = false.
Proof.
  intros Hweb Hcan Hver can found. subst can found.
  unfold canInstall, getCompatibleVersion. simpl.
  rewrite Hcan, Hver, Hweb. simpl.
  destruct compatible, version; simpl; repeat split; reflexivity.
Qed.

Lemma web_configured_always_installable_witness :
  result (run Examples.host
            (canInstall Examples.getUserConfiguredExtensionKind
               (Examples.betaFmt true)) [Examples.installedBetaFmt])
  = Some true.
Proof.
  apply (@web_configured_always_installable
           Examples.getUserConfiguredExtensionKind _ Examples.host
           (Examples.betaFmt true) false true
           [Examples.installedBetaFmt] [Examples.installedBetaFmt]
           [Examples.installedBetaFmt] false None eq_refl eq_refl eq_refl).
Defined.

(** X16.  For an extension that is not configured to run on the web the
    service adds nothing to its base class: [canInstall] and
    [getCompatibleVersion] hand on the answer of the base class, and its
    failure when it fails, after that one call and in the state it
    left. *)
Theorem not_web_configured_as_base
    (getUserConfiguredExtensionKind
       : IExtensionIdentifier -> option (list ExtensionKind))
    (S : Type) (h : Host S) (gallery : Gallery.t)
    (sameVersion includePreRelease : bool) (s s1 s2 : S)
    (compatible : Throws bool) (version : Throws (option Gallery.t)) :
  isConfiguredToExecuteOnWeb getUserConfiguredExtensionKind gallery = false ->
  handle h (super_canInstall gallery) s = (compatible, s1) ->
  handle h (super_getCompatibleVersion gallery sameVersion includePreRelease) s
  = (version, s2) ->
  run h (canInstall getUserConfiguredExtensionKind gallery) s
  = mkOutcome compatible s1 [event (super_canInstall gallery)]
  /\ run h (getCompatibleVersion getUserConfiguredExtensionKind gallery
              sameVersion includePreRelease) s
     = mkOutcome version s2
         [event (super_getCompatibleVersion gallery sameVersion
                   includePreRelease)].
Proof.
  intros Hweb Hcan Hver.
  unfold canInstall, getCompatibleVersion. simpl.
  rewrite Hcan, Hver, Hweb.
  destruct compatible as [[|]|], version as [[v|]|]; simpl; split; reflexivity.
Qed.

Lemma not_web_configured_as_base_witness :
  run Examples.host
    (canInstall Examples.getUserConfiguredExtensionKind Examples.nativeTool) []
  = mkOutcome (Some false) [] [event (super_canInstall Examples.nativeTool)].
Proof.
  apply (@not_web_configured_as_base
           Examples.getUserConfiguredExtensionKind _ Examples.host
           Examples.nativeTool false false [] [] [] (Some false) (Some None)
           eq_refl eq_refl eq_refl).
Defined.

(** X17.  [getInstalled] only reads, and asks no more of the scanner
    than the scans it makes: the system scan unless asked for user
    extensions, then the user scan unless asked for system extensions.
    When the scans it makes answer, it returns one local extension for
    each scanned extension, the system ones first, in the order of the
    scans, each with the target platform [WEB]; a scan it does not make
    may as well fail. *)
Theorem getInstalled_scans
    (S : Type) (h : Host S) (type : option ExtensionType) (s s1 s2 : S)
    (systemExtensions userExtensions : list Scanned.t) :
  match type with
  | Some System =>
      handle h scanSystemExtensions s = (Some systemExtensions, s1)
  | Some User =>
      handle h scanUserExtensions s = (Some userExtensions, s2)
  | None =>
      handle h scanSystemExtensions s = (Some systemExtensions, s1)
      /\ handle h scanUserExtensions s1 = (Some userExtensions, s2)
  end ->
  let o := run h (getInstalled type) s in
  let scanned := match type with
                 | None => systemExtensions ++ userExtensions
                 | Some System => systemExtensions
                 | Some User => userExtensions
                 end in
  result o = Some (map toLocalExtension scanned)
  /\ trace o = match type with
               | None => [event scanSystemExtensions; event scanUserExtensions]
               | Some System => [event scanSystemExtensions]
               | Some User => [event scanUserExtensions]
               end
  /\ final o = match type with Some System => s1 | _ => s2 end
  /\ existsb eventWritesStore (trace o) = false
  /\ (forall l extensions, result o = Some extensions -> In l extensions ->
        Local.targetPlatform l = WEB).
Proof.
  intros Hscans o scanned. subst o scanned.
  assert (Hweb : forall l (xs : list Scanned.t),
             In l (map toLocalExtension xs) -> Local.targetPlatform l = WEB).
  { intros l xs Hin. apply in_map_iff in Hin.
    destruct Hin as (x & <- & _). reflexivity. }
  unfold getInstalled.
  destruct type as [[|]|]; simpl.
  - rewrite Hscans. simpl. rewrite app_nil_r. repeat split.
    intros l extensions H. inversion H. apply Hweb.
  - rewrite Hscans. simpl. repeat split.
    intros l extensions H. inversion H. apply Hweb.
  - destruct Hscans as (Hsys & Husr).
    rewrite Hsys. simpl. rewrite Husr. simpl. repeat split.
    intros l extensions H. inversion H. apply Hweb.
Qed.

(** On a host whose system scan fails, the user extensions are listed
    all the same. *)
Lemma getInstalled_scans_witness :
  handle Examples.noSystemScanHost scanSystemExtensions
    [Examples.installedBetaFmt]
  = (None, [Examples.installedBetaFmt])
  /\ trace (run Examples.noSystemScanHost (getInstalled (Some User))
              [Examples.installedBetaFmt])
     = [event scanUserExtensions]
  /\ result (run Examples.noSystemScanHost (getInstalled (Some User))
               [Examples.installedBetaFmt])
     = Some [toLocalExtension Examples.installedBetaFmt].
Proof.
  split; [reflexivity|].
  destruct (@getInstalled_scans _ Examples.noSystemScanHost (Some User)
              [Examples.installedBetaFmt] [] [Examples.installedBetaFmt]
              [] [Examples.installedBetaFmt]
              eq_refl) as (Hres & Htrace & _).
  split; [exact Htrace | exact Hres].
Defined.

Section DoRunMore.
Variable areSameExtensions : IExtensionIdentifier -> IExtensionIdentifier -> bool.

Local Abbreviation findExisting := (findExisting areSameExtensions).
Local Abbreviation doRun := (doRun areSameExtensions).

(** A run of [doRun], call by call. *)
Lemma doRun_run S (h : Host S) this s :
  run h (doRun this) s
  = match handle h scanUserExtensions s with
    | (None, s1) => mkOutcome None s1 [event scanUserExtensions]
    | (Some userExtensions, s1) =>
        let existing := findExisting this userExtensions in
        let this' :=
          match existing with
          | Some _ =>
              InstallExtensionTask.mk (InstallExtensionTask.identifier this)
                (InstallExtensionTask.source this)
                (InstallExtensionTask.options this) Update
          | None => this
          end in
        let options := InstallExtensionTask.options this in
        let metadata := getMetadata (Some options) existing in
        match InstallExtensionTask.source this with
        | FromUri location =>
            match handle h (addExtension location metadata) s1 with
            | (None, s2) =>
                mkOutcome None s2
                  [event scanUserExtensions;
                   event (addExtension location metadata)]
            | (Some scanned, s2) =>
                mkOutcome (Some (this', (toLocalExtension scanned, metadata)))
                  s2
                  [event scanUserExtensions;
                   event (addExtension location metadata)]
            end
        | FromGallery gallery =>
            match handle h Date_now s1 with
            | (None, s2) =>
                mkOutcome None s2 [event scanUserExtensions; event Date_now]
            | (Some now, s2) =>
                let metadata :=
                  galleryMetadata options existing gallery now metadata in
                match handle h (addExtensionFromGallery gallery metadata) s2 with
                | (None, s3) =>
                    mkOutcome None s3
                      [event scanUserExtensions; event Date_now;
                       event (addExtensionFromGallery gallery metadata)]
                | (Some scanned, s3) =>
                    mkOutcome
                      (Some (this', (toLocalExtension scanned, metadata))) s3
                      [event scanUserExtensions; event Date_now;
                       event (addExtensionFromGallery gallery metadata)]
                end
            end
        end
    end.
Proof.
  unfold doRun. simpl.
  destruct (handle h scanUserExtensions s) as [[userExtensions|] s1];
    [|reflexivity].
  simpl.
  destruct (findExisting this userExtensions) as [e|];
    destruct (InstallExtensionTask.source this) as [location|gallery] eqn:Hsrc;
    simpl; try rewrite Hsrc; simpl;
    repeat match goal with
      | |- context [handle h ?c ?st] =>
          destruct (handle h c st) as [[?|] ?]; simpl
      end;
    reflexivity.
Qed.

End DoRunMore.

(** X18.  A run of [doRun] that returns has read the store once and then
    written it once: its calls are [scanUserExtensions], the clock for a
    gallery extension, and one [add] call for the source of the task,
    carrying the very metadata the run returns.  It never removes. *)
Theorem doRun_calls
    (areSameExtensions : IExtensionIdentifier -> IExtensionIdentifier -> bool)
    (S : Type) (h : Host S) (this this' : InstallExtensionTask.t) (s : S)
    (local : Local.t) (md : Metadata.t) :
  result (run h (doRun areSameExtensions this) s) = Some (this', (local, md)) ->
  trace (run h (doRun areSameExtensions this) s)
  = match InstallExtensionTask.source this with
    | FromUri location =>
        [event scanUserExtensions; event (addExtension location md)]
    | FromGallery gallery =>
        [event scanUserExtensions; event Date_now;
         event (addExtensionFromGallery gallery md)]
    end.
Proof.
  rewrite doRun_run.
  destruct (handle h scanUserExtensions s) as [[userExtensions|] s1];
    [|discriminate].
  simpl.
  destruct (InstallExtensionTask.source this) as [location|gallery].
  - destruct (handle h (addExtension location _) s1) as [[scanned|] s2];
      [|discriminate].
    simpl. intros H. now inversion H.
  - destruct (handle h Date_now s1) as [[now|] s2]; [|discriminate].
    destruct (handle h (addExtensionFromGallery gallery _) s2)
      as [[scanned|] s3]; [|discriminate].
    simpl. intros H. now inversion H.
Qed.

Lemma doRun_calls_witness :
  exists md,
    trace (run Examples.host
             (doRun Examples.areSameExtensions
                (newInstallExtensionTask Examples.getGalleryExtensionId
                   Examples.manifest (FromUri "/tmp/beta.fmt")
                   InstallOptions.empty))
             [Examples.sideloadedBetaFmt])
    = [event scanUserExtensions; event (addExtension "/tmp/beta.fmt" md)].
Proof.
  eexists.
  refine (@doRun_calls Examples.areSameExtensions _ Examples.host
            (newInstallExtensionTask Examples.getGalleryExtensionId
               Examples.manifest (FromUri "/tmp/beta.fmt")
               InstallOptions.empty)
            _ [Examples.sideloadedBetaFmt] _ _ eq_refl).
Defined.

(** X19.  A run of [doRun] that fails has changed nothing in the store
    through a call that succeeded: when the scan fails no [add] call is
    made at all, and in every failed run the only call that can be a
    write is the last one, the one that failed. *)
Theorem doRun_failure
    (areSameExtensions : IExtensionIdentifier -> IExtensionIdentifier -> bool)
    (S : Type) (h : Host S) (this : InstallExtensionTask.t) (s : S) :
  let o := run h (doRun areSameExtensions this) s in
  (forall s1, handle h scanUserExtensions s = (None, s1) ->
     o = mkOutcome None s1 [event scanUserExtensions])
  /\ (result o = None ->
      existsb eventWritesStore (removelast (trace o)) = false).
Proof.
  intros o. subst o. rewrite doRun_run. split.
  - intros s1 ->. reflexivity.
  - destruct (handle h scanUserExtensions s) as [[userExtensions|] s1];
      [|reflexivity].
    simpl.
    destruct (InstallExtensionTask.source this) as [location|gallery].
    + destruct (handle h (addExtension location _) s1) as [[scanned|] s2];
        [discriminate | reflexivity].
    + destruct (handle h Date_now s1) as [[now|] s2]; [|reflexivity].
      destruct (handle h (addExtensionFromGallery gallery _) s2)
        as [[scanned|] s3]; [discriminate | reflexivity].
Qed.

(** An install into a store that cannot be written. *)
Lemma doRun_failure_witness :
  let o := run Examples.readOnlyHost
             (doRun Examples.areSameExtensions
                (newInstallExtensionTask Examples.getGalleryExtensionId
                   Examples.manifest (FromGallery (Examples.betaFmt false))
                   InstallOptions.empty))
             [Examples.installedBetaFmt] in
  result o = None
  /\ final o = [Examples.installedBetaFmt]
  /\ existsb eventWritesStore (removelast (trace o)) = false.
Proof.
  intros o. split; [reflexivity|]. split; [reflexivity|].
  exact (proj2 (@doRun_failure Examples.areSameExtensions _
                  Examples.readOnlyHost
                  (newInstallExtensionTask Examples.getGalleryExtensionId
                     Examples.manifest (FromGallery (Examples.betaFmt false))
                     InstallOptions.empty)
                  [Examples.installedBetaFmt]) eq_refl).
Defined.

(** X20.  An install from a location carries the metadata of the
    extension it replaces over as it is, the machine-scoped flag apart:
    the id, the publisher, the install timestamp, the pre-release flags,
    the builtin and system flags and the [updated] flag are those of the
    existing extension; with no existing extension, or one without
    metadata, they are all undefined. *)
Theorem doRun_location_carries_over
    (areSameExtensions : IExtensionIdentifier -> IExtensionIdentifier -> bool)
    (S : Type) (h : Host S) (this this' : InstallExtensionTask.t)
    (location : string) (s s1 : S) (userExtensions : list Scanned.t)
    (local : Local.t) (md : Metadata.t) :
  InstallExtensionTask.source this = FromUri location ->
  handle h scanUserExtensions s = (Some userExtensions, s1) ->
  result (run h (doRun areSameExtensions this) s) = Some (this', (local, md)) ->
  let old :=
    match findExisting areSameExtensions this userExtensions with
    | Some e =>
        match Scanned.metadata e with
        | Some m => m
        | None => Metadata.empty
        end
    | None => Metadata.empty
    end in
  md = Metadata.mk (Metadata.id old) (Metadata.publisherId old)
         (Metadata.publisherDisplayName old) (Metadata.installedTimestamp old)
         (Metadata.isPreReleaseVersion old) (Metadata.isBuiltin old)
         (Metadata.isSystem old) (Metadata.updated old)
         (Metadata.preRelease old)
         (Js.or (InstallOptions.isMachineScoped
                   (InstallExtensionTask.options this))
            (Metadata.isMachineScoped old))
         (Metadata.isApplicationScoped old).
Proof.
  intros Hsrc Hscan Hrun old. subst old.
  pose proof (doRun_inv areSameExtensions h this s Hscan Hrun)
    as (_ & _ & Hmd).
  rewrite Hsrc in Hmd. subst md. reflexivity.
Qed.

Lemma doRun_location_carries_over_witness :
  exists this' local md,
    Examples.install (FromUri "/tmp/beta.fmt") InstallOptions.empty
      [Examples.installedBetaFmt]
    = Some (this', (local, md))
    /\ Metadata.installedTimestamp md = Some 1000
    /\ Metadata.updated md = Some false.
Proof.
  eexists _, _, _.
  refine (let H :=
    @doRun_location_carries_over Examples.areSameExtensions _ Examples.host
      (newInstallExtensionTask Examples.getGalleryExtensionId
         Examples.manifest (FromUri "/tmp/beta.fmt") InstallOptions.empty)
      _ "/tmp/beta.fmt" [Examples.installedBetaFmt] [Examples.installedBetaFmt]
      [Examples.installedBetaFmt] _ _ eq_refl eq_refl eq_refl in _).
  split; [reflexivity|]. rewrite H. split; reflexivity.
Defined.

(** X21.  The pre-release flag of a gallery install, in full: the
    metadata has a truthy [preRelease] exactly when the gallery version
    is a pre-release, or the options carry [installPreReleaseVersion =
    true], or they carry no boolean at all and the metadata of the
    existing extension has a truthy [preRelease]. *)
Theorem doRun_preRelease_rule
    (areSameExtensions : IExtensionIdentifier -> IExtensionIdentifier -> bool)
    (S : Type) (h : Host S) (this this' : InstallExtensionTask.t)
    (gallery : Gallery.t) (s s1 : S) (userExtensions : list Scanned.t)
    (local : Local.t) (md : Metadata.t) :
  InstallExtensionTask.source this = FromGallery gallery ->
  handle h scanUserExtensions s = (Some userExtensions, s1) ->
  result (run h (doRun areSameExtensions this) s) = Some (this', (local, md)) ->
  let existing := findExisting areSameExtensions this userExtensions in
  let old := getMetadata None existing in
  Js.truthy (Metadata.preRelease md)
  = (Gallery.isPreReleaseVersion (Gallery.properties gallery)
     || match InstallOptions.installPreReleaseVersion
                (InstallExtensionTask.options this) with
        | Some requested => requested
        | None => Js.truthy (Metadata.preRelease old)
        end)%bool.
Proof.
  intros Hsrc Hscan Hrun existing old. subst old existing.
  pose proof (doRun_inv areSameExtensions h this s Hscan Hrun)
    as (_ & _ & Hmd).
  rewrite Hsrc in Hmd. destruct Hmd as (now & ->). simpl.
  destruct (Gallery.isPreReleaseVersion (Gallery.properties gallery));
    [reflexivity|].
  simpl.
  now destruct (InstallOptions.installPreReleaseVersion
                  (InstallExtensionTask.options this)) as [[|]|].
Qed.

Lemma doRun_preRelease_rule_witness :
  exists this' local md,
    Examples.install (FromGallery (Examples.betaFmt true))
      Examples.optionsNoPreRelease []
    = Some (this', (local, md))
    /\ Js.truthy (Metadata.preRelease md) = true.
Proof.
  eexists _, _, _.
  refine (let H :=
    @doRun_preRelease_rule Examples.areSameExtensions _ Examples.host
      (newInstallExtensionTask Examples.getGalleryExtensionId
         Examples.manifest (FromGallery (Examples.betaFmt true))
         Examples.optionsNoPreRelease)
      _ (Examples.betaFmt true) [] [] [] _ _ eq_refl eq_refl eq_refl in _).
  split; [reflexivity | exact H].
Defined.

(** X22.  A gallery install stamps the metadata from the gallery entry
    and the clock, whatever the existing extension carried: the id is the
    uuid of the entry, the publisher id and display name are those of the
    entry, [isPreReleaseVersion] is that of the entry, and the install
    timestamp is the reading of the clock taken in this run, after the
    scan. *)
Theorem doRun_gallery_stamp
    (areSameExtensions : IExtensionIdentifier -> IExtensionIdentifier -> bool)
    (S : Type) (h : Host S) (this this' : InstallExtensionTask.t)
    (gallery : Gallery.t) (s s1 s2 : S) (userExtensions : list Scanned.t)
    (now : nat) (local : Local.t) (md : Metadata.t) :
  InstallExtensionTask.source this = FromGallery gallery ->
  handle h scanUserExtensions s = (Some userExtensions, s1) ->
  handle h Date_now s1 = (Some now, s2) ->
  result (run h (doRun areSameExtensions this) s) = Some (this', (local, md)) ->
  Metadata.id md = uuid (Gallery.identifier gallery)
  /\ Metadata.publisherId md = Some (Gallery.publisherId gallery)
  /\ Metadata.publisherDisplayName md
     = Some (Gallery.publisherDisplayName gallery)
  /\ Metadata.isPreReleaseVersion md
     = Some (Gallery.isPreReleaseVersion (Gallery.properties gallery))
  /\ Metadata.installedTimestamp md = Some now.
Proof.
  intros Hsrc Hscan Hnow. rewrite doRun_run, Hscan. simpl.
  rewrite Hsrc, Hnow.
  destruct (handle h (addExtensionFromGallery gallery _) s2)
    as [[scanned|] s3]; [|discriminate].
  simpl. intros H. inversion H; subst. repeat split.
Qed.

Lemma doRun_gallery_stamp_witness :
  exists this' local md,
    Examples.install (FromGallery Examples.nativeTool) InstallOptions.empty
      [Examples.installedBetaFmt]
    = Some (this', (local, md))
    /\ Metadata.id md = Some "U2"
    /\ Metadata.installedTimestamp md = Some 1000.
Proof.
  eexists _, _, _.
  refine (let H :=
    @doRun_gallery_stamp Examples.areSameExtensions _ Examples.host
      (newInstallExtensionTask Examples.getGalleryExtensionId
         Examples.manifest (FromGallery Examples.nativeTool)
         InstallOptions.empty)
      _ Examples.nativeTool [Examples.installedBetaFmt]
      [Examples.installedBetaFmt] [Examples.installedBetaFmt]
      [Examples.installedBetaFmt] 1000 _ _ eq_refl eq_refl eq_refl eq_refl in _).
  destruct H as (Hid & _ & _ & _ & Htime).
  split; [reflexivity|]. split; [exact Hid | exact Htime].
Defined.

(** X23.  The builtin and system flags of a gallery install.  The
    metadata has a truthy [isBuiltin] exactly when the options carry
    [isBuiltin = true] or the existing extension is builtin; [isSystem]
    is [true] when the existing extension is of type [System] and is
    undefined otherwise, never [false]. *)
Theorem doRun_builtin_system
    (areSameExtensions : IExtensionIdentifier -> IExtensionIdentifier -> bool)
    (S : Type) (h : Host S) (this this' : InstallExtensionTask.t)
    (gallery : Gallery.t) (s s1 : S) (userExtensions : list Scanned.t)
    (local : Local.t) (md : Metadata.t) :
  InstallExtensionTask.source this = FromGallery gallery ->
  handle h scanUserExtensions s = (Some userExtensions, s1) ->
  result (run h (doRun areSameExtensions this) s) = Some (this', (local, md)) ->
  let existing := findExisting areSameExtensions this userExtensions in
  Js.truthy (Metadata.isBuiltin md)
  = (Js.truthy (InstallOptions.isBuiltin (InstallExtensionTask.options this))
     || match existing with
        | Some e => Scanned.isBuiltin e
        | None => false
        end)%bool
  /\ Metadata.isSystem md
     = match existing with
       | Some e =>
           match Scanned.type e with
           | System => Some true
           | User => None
           end
       | None => None
       end
  /\ Metadata.isSystem md <> Some false.
Proof.
  intros Hsrc Hscan Hrun existing. subst existing.
  pose proof (doRun_inv areSameExtensions h this s Hscan Hrun)
    as (_ & _ & Hmd).
  rewrite Hsrc in Hmd. destruct Hmd as (now & ->). simpl.
  destruct (findExisting areSameExtensions this userExtensions) as [e|];
    simpl.
  - destruct (InstallOptions.isBuiltin (InstallExtensionTask.options this))
      as [[|]|], (Scanned.isBuiltin e), (Scanned.type e);
      simpl; repeat split; discriminate.
  - destruct (InstallOptions.isBuiltin (InstallExtensionTask.options this))
      as [[|]|]; simpl; repeat split; discriminate.
Qed.

Lemma doRun_builtin_system_witness :
  exists this' local md,
    Examples.install (FromGallery (Examples.betaFmt false)) InstallOptions.empty
      [Examples.systemBetaFmt]
    = Some (this', (local, md))
    /\ Js.truthy (Metadata.isBuiltin md) = true
    /\ Metadata.isSystem md = Some true.
Proof.
  eexists _, _, _.
  refine (let H :=
    @doRun_builtin_system Examples.areSameExtensions _ Examples.host
      (newInstallExtensionTask Examples.getGalleryExtensionId
         Examples.manifest (FromGallery (Examples.betaFmt false))
         InstallOptions.empty)
      _ (Examples.betaFmt false) [Examples.systemBetaFmt]
      [Examples.systemBetaFmt] [Examples.systemBetaFmt] _ _
      eq_refl eq_refl eq_refl in _).
  destruct H as (Hb & Hs & _).
  split; [reflexivity|]. split; [exact Hb | exact Hs].
Defined.

(** X24.  What [doRun] returns hangs together when the store keeps the
    metadata it is handed.  For a gallery install for which
    [addExtensionFromGallery] answers an extension carrying the metadata
    of the call, the local extension returned is that extension made
    local, its [updated] flag says whether an extension of the same
    identity was installed before, its pre-release flags are those of
    the metadata, its uuid is the uuid of the gallery entry when the
    entry has one, and its target platform is [WEB]. *)
Theorem doRun_local_agrees
    (areSameExtensions : IExtensionIdentifier -> IExtensionIdentifier -> bool)
    (S : Type) (h : Host S) (this this' : InstallExtensionTask.t)
    (gallery : Gallery.t) (s s1 s2 s3 : S) (userExtensions : list Scanned.t)
    (now : nat) (scanned : Scanned.t) (local : Local.t) (md : Metadata.t) :
  InstallExtensionTask.source this = FromGallery gallery ->
  handle h scanUserExtensions s = (Some userExtensions, s1) ->
  handle h Date_now s1 = (Some now, s2) ->
  result (run h (doRun areSameExtensions this) s) = Some (this', (local, md)) ->
  handle h (addExtensionFromGallery gallery md) s2 = (Some scanned, s3) ->
  Scanned.metadata scanned = Some md ->
  local = toLocalExtension scanned
  /\ Local.updated local
     = isSome (findExisting areSameExtensions this userExtensions)
  /\ Local.preRelease local = Js.truthy (Metadata.preRelease md)
  /\ Local.isPreReleaseVersion local
     = Gallery.isPreReleaseVersion (Gallery.properties gallery)
  /\ Local.installedTimestamp local = Some now
  /\ uuid (Local.identifier local)
     = Js.nullish (uuid (Gallery.identifier gallery))
         (uuid (Scanned.identifier scanned))
  /\ Local.targetPlatform local = WEB.
Proof.
  intros Hsrc Hscan Hnow Hrun Hadd Hkeeps.
  rewrite doRun_run, Hscan in Hrun. simpl in Hrun.
  rewrite Hsrc, Hnow in Hrun.
  destruct (handle h (addExtensionFromGallery gallery _) s2)
    as [[scanned'|] s3'] eqn:E; [|discriminate].
  simpl in Hrun. injection Hrun as _ Hlocal Hmd.
  rewrite Hmd, Hadd in E. injection E as -> _.
  subst local. split; [reflexivity|].
  unfold toLocalExtension, getMetadata. rewrite Hkeeps.
  subst md. simpl.
  repeat split; try reflexivity.
  - now destruct (findExisting areSameExtensions this userExtensions).
  - now destruct (Gallery.isPreReleaseVersion (Gallery.properties gallery)).
Qed.

Lemma doRun_local_agrees_witness :
  exists this' local md,
    Examples.install (FromGallery (Examples.betaFmt false)) InstallOptions.empty
      [Examples.installedBetaFmt]
    = Some (this', (local, md))
    /\ Local.updated local = true
    /\ uuid (Local.identifier local) = Some "U1".
Proof.
  eexists _, _, _.
  refine (let H :=
    @doRun_local_agrees Examples.areSameExtensions _ Examples.host
      (newInstallExtensionTask Examples.getGalleryExtensionId
         Examples.manifest (FromGallery (Examples.betaFmt false))
         InstallOptions.empty)
      _ (Examples.betaFmt false) [Examples.installedBetaFmt]
      [Examples.installedBetaFmt] [Examples.installedBetaFmt] _
      [Examples.installedBetaFmt] 1000 _ _ _
      eq_refl eq_refl eq_refl eq_refl eq_refl eq_refl in _).
  destruct H as (_ & Hu & _ & _ & _ & Hid & _).
  split; [reflexivity|]. split; [exact Hu | exact Hid].
Defined.

(* ===================================================================== *)
(** * The scans and the [scanExtensions] method *)
(* ===================================================================== *)

Lemma fold_left_concat A (l : list (list A)) : forall acc,
  fold_left (fun extDesc eds => extDesc ++ eds) l acc = acc ++ List.concat l.
Proof.
  induction l as [|x l IH]; simpl; intros acc.
  - now rewrite app_nil_r.
  - now rewrite IH, app_assoc.
Qed.

Lemma mapThrows_Forall2 A B (f : A -> Throws B) (l : list A) : forall l',
  mapThrows f l = Some l' <-> Forall2 (fun a b => f a = Some b) l l'.
Proof.
  induction l as [|a l IH]; simpl; intros l'.
  - split; [intros H; inversion H; constructor | intros H; now inversion H].
  - split.
    + destruct (f a) as [b|] eqn:Hfa; [|discriminate].
      destruct (mapThrows f l) as [bs|] eqn:Hl; [|discriminate].
      intros H; inversion H; subst. constructor; [assumption|].
      now apply IH.
    + intros H. inversion H as [|? b ? bs Hfa Hrest]; subst.
      rewrite Hfa. apply IH in Hrest. now rewrite Hrest.
Qed.

Lemma mapThrows_None A B (f : A -> Throws B) (l : list A) (a : A) :
  In a l -> f a = None -> mapThrows f l = None.
Proof.
  induction l as [|x l IH]; simpl; intros Hin Hfa; [contradiction|].
  destruct Hin as [->|Hin].
  - now rewrite Hfa.
  - destruct (f x); [|reflexivity]. now rewrite IH.
Qed.

(** X25.  [scanDevelopedExtensions].  Without development paths it
    resolves to the empty list and scans nothing.  With paths it scans
    each of them in development mode, not builtin and under development,
    and resolves to the results one after the other in the order of the
    paths; and it rejects as soon as the scan of one path rejects. *)
Theorem scanDevelopedExtensions_paths
    (Translations : Type) (product_version : string)
    (product_commit : option string)
    (scanOneOrMultipleExtensions :
       ExtensionScannerInput Translations ->
       Throws (list (option IExtensionDescription)))
    (language : string) (translations : Translations) :
  let scan := scanDevelopedExtensions product_version product_commit
                scanOneOrMultipleExtensions language translations in
  let input path := mkScannerInput product_version product_commit language
                      true path false true translations in
  scan None = Some []
  /\ (forall paths results,
        Forall2 (fun path result =>
                   scanOneOrMultipleExtensions (input path) = Some result)
          paths results ->
        scan (Some paths) = Some (List.concat results))
  /\ (forall paths path,
        In path paths ->
        scanOneOrMultipleExtensions (input path) = None ->
        scan (Some paths) = None).
Proof.
  intros scan input. subst scan input. split; [reflexivity|]. split.
  - intros paths results Hall. unfold scanDevelopedExtensions.
    apply mapThrows_Forall2 in Hall. rewrite Hall. simpl.
    now rewrite fold_left_concat.
  - intros paths path Hin Hnone. unfold scanDevelopedExtensions.
    now rewrite (mapThrows_None _ _ _ Hin Hnone).
Qed.

Lemma scanDevelopedExtensions_paths_witness :
  scanDevelopedExtensions "1.0.0" None Examples.scanOneOrMultipleExtensions
    "en" [] (Some ["/dev/git"; "/dev/empty"; "/dev/acme.lint"])
  = Some [Some Examples.sysGit; None; Some Examples.devLint]
  /\ scanDevelopedExtensions "1.0.0" None Examples.scanOneOrMultipleExtensions
       "en" [] (Some ["/dev/git"; "/dev/missing"])
     = None.
Proof.
  destruct (@scanDevelopedExtensions_paths Examples.Translations "1.0.0" None
              Examples.scanOneOrMultipleExtensions "en" [])
    as (_ & Hall & Hone).
  split.
  - apply (Hall ["/dev/git"; "/dev/empty"; "/dev/acme.lint"]
             [[Some Examples.sysGit; None]; []; [Some Examples.devLint]]).
    repeat constructor.
  - apply (Hone ["/dev/git"; "/dev/missing"] "/dev/missing").
    + simpl. auto.
    + reflexivity.
Defined.

Section ScansFacts.

Variable toKey : ExtensionIdentifier -> string.
Variable Translations : Type.
Variable Object_create_null : Translations.
Variable emptyObject : Translations.
Variable product_version : string.
Variable product_commit : option string.
Variable product_builtInExtensions : option (list IBuiltInExtension).
Variable process_env_VSCODE_DEV : option string.
Variable userDataPath : string.
Variable environment_extensionsPath : string.
Variable getPathFromAmdModule : string.
Variable normalize : string -> string.
Variable joinAll : list string -> string.
Variable ExtensionScanner_scanExtensions :
  ExtensionScannerInput Translations -> option (list IExtensionReference) ->
  Throws (list (option IExtensionDescription)).
Variable ExtensionScanner_scanOneOrMultipleExtensions :
  ExtensionScannerInput Translations ->
  Throws (list (option IExtensionDescription)).
Variable ExtensionScanner_mergeBuiltinExtensions :
  Throws (list (option IExtensionDescription)) ->
  Throws (list (option IExtensionDescription)) ->
  Throws (list (option IExtensionDescription)).
Variable getNLSConfiguration : string -> string -> Throws NLSConfiguration.
Variable pfs_readFile : string -> Throws string.
Variable JSON_parse : string -> Throws Translations.

Local Abbreviation getSystemExtensionsRoot :=
  (getSystemExtensionsRoot getPathFromAmdModule normalize joinAll).
Local Abbreviation getExtraDevSystemExtensionsRoot :=
  (getExtraDevSystemExtensionsRoot getPathFromAmdModule normalize joinAll).
Local Abbreviation scanBuiltinExtensions :=
  (scanBuiltinExtensions emptyObject product_version product_commit
     product_builtInExtensions process_env_VSCODE_DEV getPathFromAmdModule
     normalize joinAll ExtensionScanner_scanExtensions
     ExtensionScanner_mergeBuiltinExtensions).
Local Abbreviation scanInstalledExtensions :=
  (scanInstalledExtensions product_version product_commit
     environment_extensionsPath ExtensionScanner_scanExtensions).
Local Abbreviation scanDevelopedExtensions :=
  (scanDevelopedExtensions product_version product_commit
     ExtensionScanner_scanOneOrMultipleExtensions).
Local Abbreviation scanWithTranslations :=
  (scanWithTranslations toKey emptyObject product_version product_commit
     product_builtInExtensions process_env_VSCODE_DEV
     environment_extensionsPath getPathFromAmdModule normalize joinAll
     ExtensionScanner_scanExtensions
     ExtensionScanner_scanOneOrMultipleExtensions
     ExtensionScanner_mergeBuiltinExtensions).
Local Abbreviation scanExtensions_method :=
  (scanExtensions_method toKey Object_create_null emptyObject product_version
     product_commit product_builtInExtensions process_env_VSCODE_DEV
     userDataPath environment_extensionsPath getPathFromAmdModule normalize
     joinAll ExtensionScanner_scanExtensions
     ExtensionScanner_scanOneOrMultipleExtensions
     ExtensionScanner_mergeBuiltinExtensions getNLSConfiguration pfs_readFile
     JSON_parse).

(** X26.  The translations of the [scanExtensions] method.  For a
    language pack whose translations file cannot be read the scan goes
    on with no translations, as it does without a language pack; a file
    that is read but is not JSON makes the whole scan reject, without a
    single folder scanned; a file that parses gives the translations of
    the scan. *)
Theorem scanExtensions_method_translations
    (language : string) (extensionDevelopmentPath : option (list string))
    (roots : Roots) (file : string) :
  getNLSConfiguration language userDataPath
  = Some (InternalNLSConfiguration file) ->
  let method := scanExtensions_method language extensionDevelopmentPath roots in
  (pfs_readFile file = None ->
     method = scanWithTranslations language extensionDevelopmentPath
                Object_create_null roots)
  /\ (forall content,
        pfs_readFile file = Some content -> JSON_parse content = None ->
        method = (None, roots))
  /\ (forall content translations,
        pfs_readFile file = Some content ->
        JSON_parse content = Some translations ->
        method = scanWithTranslations language extensionDevelopmentPath
                   translations roots).
Proof.
  intros Hnls method. subst method.
  unfold scanExtensions_method, loadTranslations. rewrite Hnls.
  repeat split.
  - intros ->. reflexivity.
  - intros content -> ->. reflexivity.
  - intros content translations -> ->. reflexivity.
Qed.

(** X27.  The three scans are all or nothing.  Once the translations
    are there, the method resolves exactly when the builtin, the
    installed and the developed scan all resolve, and then to the merge
    of their three results with its warnings; the roots computed by the
    builtin scan are kept either way. *)
Theorem scanWithTranslations_all_or_nothing
    (language : string) (extensionDevelopmentPath : option (list string))
    (translations : Translations) (roots : Roots) :
  let all := scanWithTranslations language extensionDevelopmentPath
               translations roots in
  let builtinP := scanBuiltinExtensions language translations roots in
  snd all = snd builtinP
  /\ forall r,
       fst all = Some r
       <-> exists builtin installed developed,
             fst builtinP = Some builtin
             /\ scanInstalledExtensions language translations = Some installed
             /\ scanDevelopedExtensions language translations
                  extensionDevelopmentPath = Some developed
             /\ r = scanExtensions_console toKey builtin installed developed.
Proof.
  intros all builtinP. subst all builtinP.
  unfold scanWithTranslations.
  destruct (scanBuiltinExtensions language translations roots)
    as [builtinP roots'].
  destruct builtinP as [b|],
    (scanInstalledExtensions language translations) as [i|],
    (scanDevelopedExtensions language translations extensionDevelopmentPath)
      as [d|];
    simpl; (split; [reflexivity|]); intros r; split;
    try discriminate;
    try (intros (b' & i' & d' & Hb & Hi & Hd & _); discriminate).
  - intros H. inversion H. now exists b, i, d.
  - intros (b' & i' & d' & Hb & Hi & Hd & ->). congruence.
Qed.

End ScansFacts.

(** X28.  The two roots are cached in their module variables.  A getter
    that finds a non-empty root in its variable returns it and computes
    nothing, whatever [getPathFromAmdModule] would answer; one that finds
    [null] (or an empty root) computes the root, stores it and returns
    it.  So once a getter has returned a non-empty root, every further
    call returns that root and leaves the variables as they are, even if
    the module path were to change in between.  Neither getter touches
    the variable of the other. *)
Theorem roots_computed_once
    (normalize : string -> string) (joinAll : list string -> string)
    (amdPath amdPath' : string) (roots : Roots) :
  let first := getSystemExtensionsRoot amdPath normalize joinAll roots in
  let extra := getExtraDevSystemExtensionsRoot amdPath normalize joinAll roots in
  (forall root, _SystemExtensionsRoot roots = Some root -> root <> "" ->
                first = (root, roots))
  /\ (forall root, _ExtraDevSystemExtensionsRoot roots = Some root ->
                   root <> "" -> extra = (root, roots))
  /\ (falsyString (_SystemExtensionsRoot roots) = true ->
      fst first = normalize (joinAll [amdPath; ".."; "extensions"]))
  /\ (falsyString (_ExtraDevSystemExtensionsRoot roots) = true ->
      fst extra
      = normalize (joinAll [amdPath; ".."; ".build"; "builtInExtensions"]))
  /\ (fst first <> "" ->
      getSystemExtensionsRoot amdPath' normalize joinAll (snd first) = first)
  /\ (fst extra <> "" ->
      getExtraDevSystemExtensionsRoot amdPath' normalize joinAll (snd extra)
      = extra)
  /\ _SystemExtensionsRoot (snd first) = Some (fst first)
  /\ _ExtraDevSystemExtensionsRoot (snd extra) = Some (fst extra)
  /\ _ExtraDevSystemExtensionsRoot (snd first)
     = _ExtraDevSystemExtensionsRoot roots
  /\ _SystemExtensionsRoot (snd extra) = _SystemExtensionsRoot roots.
Proof.
  intros first extra. subst first extra.
  unfold getSystemExtensionsRoot, getExtraDevSystemExtensionsRoot.
  destruct roots as [sys ext]. simpl.
  assert (Hfalsy : forall root, root <> "" -> falsyString (Some root) = false).
  { intros [|c root] H; [now contradiction H | reflexivity]. }
  repeat match goal with |- _ /\ _ => split end.
  - intros root -> Hroot. now rewrite (Hfalsy root Hroot).
  - intros root -> Hroot. now rewrite (Hfalsy root Hroot).
  - now intros ->.
  - now intros ->.
  - destruct (falsyString sys) eqn:Hs; simpl.
    + destruct (normalize _) as [|c root]; [intros H; now contradiction H|].
      reflexivity.
    + now rewrite Hs.
  - destruct (falsyString ext) eqn:He; simpl.
    + destruct (normalize _) as [|c root]; [intros H; now contradiction H|].
      reflexivity.
    + now rewrite He.
  - destruct (falsyString sys) eqn:Hs; simpl; [reflexivity|].
    destruct sys; [reflexivity | discriminate].
  - destruct (falsyString ext) eqn:He; simpl; [reflexivity|].
    destruct ext; [reflexivity | discriminate].
  - now destruct (falsyString sys).
  - now destruct (falsyString ext).
Qed.

(** A root already in the variable wins over the one the module path
    would give; after a first call from [null], a call made with another
    module path still returns the first root. *)
Lemma roots_computed_once_witness :
  getSystemExtensionsRoot "/opt/app/out" (fun p => p) Examples.posixJoin
    (mkRoots (Some "/cached/extensions") None)
  = ("/cached/extensions", mkRoots (Some "/cached/extensions") None)
  /\ getSystemExtensionsRoot "/moved/out" (fun p => p) Examples.posixJoin
       (snd (getSystemExtensionsRoot "/opt/app/out" (fun p => p)
               Examples.posixJoin initialRoots))
     = ("/opt/app/out/../extensions",
        mkRoots (Some "/opt/app/out/../extensions") None).
Proof.
  pose proof (@roots_computed_once (fun p => p) Examples.posixJoin
                "/opt/app/out" "/moved/out"
                (mkRoots (Some "/cached/extensions") None)) as Hcached.
  pose proof (@roots_computed_once (fun p => p) Examples.posixJoin
                "/opt/app/out" "/moved/out" initialRoots) as Hfresh.
  cbv zeta in Hcached, Hfresh.
  destruct Hcached as (Hcached & _).
  destruct Hfresh as (_ & _ & _ & _ & Hfresh & _).
  split.
  - apply Hcached; [reflexivity | discriminate].
  - rewrite Hfresh; [reflexivity | discriminate].
Defined.

(** The French language pack is not JSON, the German one cannot be
    read. *)
Lemma scanExtensions_method_translations_witness :
  Examples.scanMethod "fr" None initialRoots = (None, initialRoots)
  /\ fst (Examples.scanMethod "de" (Some ["/dev/acme.lint"]) initialRoots)
     = Some ([Examples.devLint; Examples.sysGit],
             [mkWarning "/sys/acme.lint" "/user/acme.lint"]).
Proof.
  split.
  - refine (proj1 (proj2
      (@scanExtensions_method_translations Examples.toKey Examples.Translations
         [] [] "1.0.0" None None None "/data" "/user/extensions" "/opt/app/out"
         (fun p => p) Examples.posixJoin Examples.scannerScanExtensions
         Examples.scanOneOrMultipleExtensions Examples.mergeBuiltinExtensions
         Examples.nlsConfiguration Examples.readFile Examples.parse
         "fr" None initialRoots "/data/fr" eq_refl))
      "{not json" eq_refl eq_refl).
  - pose proof (proj1
      (@scanExtensions_method_translations Examples.toKey Examples.Translations
         [] [] "1.0.0" None None None "/data" "/user/extensions" "/opt/app/out"
         (fun p => p) Examples.posixJoin Examples.scannerScanExtensions
         Examples.scanOneOrMultipleExtensions Examples.mergeBuiltinExtensions
         Examples.nlsConfiguration Examples.readFile Examples.parse
         "de" (Some ["/dev/acme.lint"]) initialRoots "/data/de" eq_refl)
      eq_refl) as H.
    exact (eq_trans (f_equal fst H) eq_refl).
Defined.
